(** * simple_tta: the instruction codec of [assembler.py]

    A shallow embedding of the [Instr] class of [assembler.py] (the
    constructor, [hex] and [asm]) together with the properties of the
    instruction word layout, of the extension words and of the
    disassembly text.

    Python integers are unbounded, so every integer of the program is a
    [Z]; [|] is [Z.lor] and [<<] by a constant is [Z.shiftl].  The two
    keyword arguments [soperand] and [doperand] default to [None], so
    they are [option Z].  Formatting [None] with an integer format code
    raises, which is the only way a method of [Instr] can fail: [hex]
    and [asm] return in an error monad.  The constructor has no
    statement that can raise on integers, so it is a total function.

    [chunks] and the body of [main] come after the class: the chunks
    as a list, the file and the printed text as the strings written. *)

From Stdlib Require Import ZArith List String Ascii Bool Lia.
From Stdlib Require Import Hexadecimal HexadecimalString HexadecimalN.
Import ListNotations.

Local Open Scope Z_scope.
Local Open Scope string_scope.

(** ** Unit codes (assembler.py, lines 3-15) *)

Definition UNIT_NONE : Z := 0.
Definition UNIT_STACK_PUSH_POP : Z := 1.
Definition UNIT_STACK_INDEX : Z := 2.
Definition UNIT_REGISTER : Z := 3.
Definition UNIT_ALU_LEFT : Z := 4.
Definition UNIT_ALU_RIGHT : Z := 5.
Definition UNIT_ALU_OPERATOR : Z := 6.
Definition UNIT_ALU_RESULT : Z := 7.
Definition UNIT_MEMORY_IMMEDIATE : Z := 8.
Definition UNIT_MEMORY_OPERAND : Z := 9.
Definition UNIT_PC : Z := 10.
Definition UNIT_ABS_IMMEDIATE : Z := 11.
Definition UNIT_ABS_OPERAND : Z := 12.

(** ** Exceptions *)

(** The one exception the methods can raise on integer fields: an
    integer format code applied to [None]. *)
Inductive exn : Type :=
| FormatError.

Inductive result (A : Type) : Type :=
| Ok (a : A)
| Raise (e : exn).

Arguments Ok {A} a.
Arguments Raise {A} e.

Definition bind {A B : Type} (m : result A) (k : A -> result B) : result B :=
  match m with
  | Ok a => k a
  | Raise e => Raise e
  end.

Notation "x <- m ;; k" := (bind m (fun x => k))
  (at level 61, m at next level, right associativity).

(** ** Python's [format] with the codes [0Wx] *)

Fixpoint zeros (k : nat) : string :=
  match k with
  | O => ""
  | S k' => String "0" (zeros k')
  end.

(** The lower-case hexadecimal digits of a natural number, ["0"] for 0. *)
Definition hex_digits (n : N) : string :=
  NilEmpty.string_of_uint (N.to_hex_uint n).

(** ["{:0Wx}".format(n)] for an integer [n]: the digits of [|n|],
    zero-filled on the left up to [width] characters, the sign of a
    negative number first and counted in the width. *)
Definition format_x (width : nat) (n : Z) : string :=
  let digits := hex_digits (Z.abs_N n) in
  let sign := if (n <? 0)%Z then "-" else "" in
  sign ++ zeros (width - String.length sign - String.length digits)%nat ++ digits.

(** The same on a field that may hold [None]. *)
Definition format_x_field (width : nat) (v : option Z) : result string :=
  match v with
  | Some n => Ok (format_x width n)
  | None => Raise FormatError
  end.

(** ** The class [Instr] *)

Module Instr.

Record t : Type := mk {
  si : Z;
  di : Z;
  dunit : Z;
  sunit : Z;
  soperand : option Z;
  doperand : option Z;
  op : Z
}.

(** [Instr.__init__] (lines 19-31). *)
Definition __init__ (sunit si dunit di : Z) (soperand doperand : option Z) : t :=
  let op := 0 in
  let op := Z.lor op sunit in
  let op := Z.lor op (Z.shiftl si 4) in
  let op := Z.lor op (Z.shiftl dunit 16) in
  let op := Z.lor op (Z.shiftl di 20) in
  {| si := si; di := di; dunit := dunit; sunit := sunit;
     soperand := soperand; doperand := doperand; op := op |}.

(** [Instr.hex] (lines 33-39). *)
Definition hex (self : t) : result string :=
  let asm := format_x 8 (op self) in
  asm <- (if (sunit self =? UNIT_MEMORY_OPERAND)%Z || (sunit self =? UNIT_ABS_OPERAND)%Z
          then w <- format_x_field 8 (soperand self) ;; Ok (asm ++ " " ++ w)
          else Ok asm) ;;
  asm <- (if (dunit self =? UNIT_MEMORY_OPERAND)%Z || (dunit self =? UNIT_ABS_OPERAND)%Z
          then w <- format_x_field 8 (doperand self) ;; Ok (asm ++ " " ++ w)
          else Ok asm) ;;
  Ok asm.

(** The first [if] chain of [Instr.asm] (lines 43-62) once [dunit] is
    known not to be [UNIT_NONE]: the text [asm] holds at line 64. *)
Definition asm_dest (self : t) : result string :=
  if (dunit self =? UNIT_STACK_PUSH_POP)%Z then Ok "PUSH "
  else if (dunit self =? UNIT_STACK_INDEX)%Z then
    Ok ("S" ++ format_x 6 (di self) ++ " := ")
  else if (dunit self =? UNIT_REGISTER)%Z then
    Ok ("R" ++ format_x 2 (di self) ++ " := ")
  else if (dunit self =? UNIT_ALU_RIGHT)%Z then Ok "ALU:RIGHT := "
  else if (dunit self =? UNIT_ALU_LEFT)%Z then Ok "ALU:LEFT := "
  else if (dunit self =? UNIT_ALU_OPERATOR)%Z then Ok "ALU:OPERATOR := "
  else if (dunit self =? UNIT_MEMORY_IMMEDIATE)%Z then
    Ok ("*(" ++ format_x 6 (di self) ++ ") := ")
  else if (dunit self =? UNIT_MEMORY_OPERAND)%Z then
    w <- format_x_field 8 (doperand self) ;; Ok ("*(" ++ w ++ ") := ")
  else if (dunit self =? UNIT_PC)%Z then Ok "JMP "
  else Ok "".

(** The second [if] chain of [Instr.asm] (lines 64-89): the text that
    [asm +=] appends. *)
Definition asm_source (self : t) : result string :=
  if (sunit self =? UNIT_NONE)%Z then Ok "#0"
  else if (sunit self =? UNIT_STACK_PUSH_POP)%Z then Ok "POP "
  else if (sunit self =? UNIT_STACK_INDEX)%Z then Ok ("S" ++ format_x 6 (si self))
  else if (sunit self =? UNIT_REGISTER)%Z then Ok ("R" ++ format_x 2 (si self))
  else if (sunit self =? UNIT_ALU_RIGHT)%Z then Ok "ALU:RIGHT "
  else if (sunit self =? UNIT_ALU_LEFT)%Z then Ok "ALU:LEFT"
  else if (sunit self =? UNIT_ALU_OPERATOR)%Z then Ok "ALU:OPERATOR"
  else if (sunit self =? UNIT_ALU_RESULT)%Z then Ok "ALU:RESULT"
  else if (sunit self =? UNIT_MEMORY_IMMEDIATE)%Z then
    Ok ("*(" ++ format_x 6 (si self) ++ ")")
  else if (sunit self =? UNIT_MEMORY_OPERAND)%Z then
    w <- format_x_field 8 (soperand self) ;; Ok ("*(" ++ w ++ ")")
  else if (sunit self =? UNIT_PC)%Z then Ok "PC"
  else if (sunit self =? UNIT_ABS_IMMEDIATE)%Z then Ok ("#" ++ format_x 6 (si self))
  else if (sunit self =? UNIT_ABS_OPERAND)%Z then
    w <- format_x_field 8 (soperand self) ;; Ok ("#" ++ w)
  else Ok "".

(** [Instr.asm] (lines 41-91). *)
Definition asm (self : t) : result string :=
  if (dunit self =? UNIT_NONE)%Z then Ok "NOP"
  else
    asm <- asm_dest self ;;
    tail <- asm_source self ;;
    Ok (asm ++ tail).

End Instr.

(** ** The word sequence behind [Instr.hex]

    [Instr.hex] prints a sequence of integers, each with the code
    [08x], separated by single spaces.  [Encode] is that sequence and
    [render_words] its printing; [hex_Encode] below shows that
    [Instr.hex] is their composition. *)

(** The test of lines 35 and 37 of [Instr.hex]. *)
Definition carries_operand (unit : Z) : bool :=
  (unit =? UNIT_MEMORY_OPERAND)%Z || (unit =? UNIT_ABS_OPERAND)%Z.

(** The extension words of one side: the operand when the unit carries
    one (formatting [None] raises), nothing otherwise. *)
Definition extension (unit : Z) (operand : option Z) : result (list Z) :=
  if carries_operand unit then
    match operand with
    | Some w => Ok [w]
    | None => Raise FormatError
    end
  else Ok [].

Definition Encode (self : Instr.t) : result (list Z) :=
  src <- extension (Instr.sunit self) (Instr.soperand self) ;;
  dst <- extension (Instr.dunit self) (Instr.doperand self) ;;
  Ok (Instr.op self :: src ++ dst)%list.

(** Each word with the code [08x], joined by single spaces. *)
Definition render_words (ws : list Z) : string :=
  String.concat " " (map (format_x 8) ws).

(** ** Well-formed instructions *)

(** The 13 defined unit codes. *)
Definition unit_code (u : Z) : Prop := 0 <= u <= 12.

(** An index that fits in 12 bits. *)
Definition index12 (x : Z) : Prop := 0 <= x < 4096.

(** An operand is present exactly for the units that carry one. *)
Definition operand_iff (unit : Z) (operand : option Z) : Prop :=
  carries_operand unit = true <-> operand <> None.

(** An operand is present whenever the unit carries one. *)
Definition operand_given (unit : Z) (operand : option Z) : Prop :=
  carries_operand unit = true -> operand <> None.

(** The object is one that the constructor builds from its own fields. *)
Definition constructed (i : Instr.t) : Prop :=
  i = Instr.__init__ (Instr.sunit i) (Instr.si i) (Instr.dunit i) (Instr.di i)
        (Instr.soperand i) (Instr.doperand i).

Record well_formed (i : Instr.t) : Prop := {
  wf_constructed : constructed i;
  wf_sunit : unit_code (Instr.sunit i);
  wf_si : index12 (Instr.si i);
  wf_dunit : unit_code (Instr.dunit i);
  wf_di : index12 (Instr.di i);
  wf_soperand : operand_iff (Instr.sunit i) (Instr.soperand i);
  wf_doperand : operand_iff (Instr.dunit i) (Instr.doperand i)
}.

(** ** The primary word and its fields *)

(** The value line 24 leaves in [op], as one expression. *)
Definition primary (sunit si dunit di : Z) : Z :=
  Z.lor (Z.lor (Z.lor sunit (Z.shiftl si 4)) (Z.shiftl dunit 16)) (Z.shiftl di 20).

(** The four fields read back from a word (the inverse of the layout). *)
Definition field_sunit (w : Z) : Z := Z.land w 15.
Definition field_si (w : Z) : Z := Z.land (Z.shiftr w 4) 4095.
Definition field_dunit (w : Z) : Z := Z.land (Z.shiftr w 16) 15.
Definition field_di (w : Z) : Z := Z.land (Z.shiftr w 20) 4095.

(** The 20 bits of a 32-bit word outside bits 4-15, and outside bits 20-31. *)
Definition outside_si_mask : Z := Z.lor 15 (Z.shiftl 65535 16).
Definition outside_di_mask : Z := Z.ones 20.

(** ** Characters and parsing *)

(** Every character of the string passes the test. *)
Fixpoint all_chars (P : ascii -> bool) (s : string) : bool :=
  match s with
  | EmptyString => true
  | String c s' => P c && all_chars P s'
  end.

Definition is_hex_digit (c : ascii) : bool :=
  match uint_of_char c (Some Nil) with
  | Some _ => true
  | None => false
  end.

(** The characters [format_x] can produce. *)
Definition is_format_char (c : ascii) : bool := is_hex_digit c || Ascii.eqb c "-".

Definition not_space (c : ascii) : bool := negb (Ascii.eqb c " ").

Definition not_equals_sign (c : ascii) : bool := negb (Ascii.eqb c "=").

(** *** Reading a formatted integer back *)

(** The number a string of hexadecimal digits writes, leading zeros
    allowed. *)
Definition N_of_digits (s : string) : option N :=
  option_map N.of_hex_uint (NilEmpty.uint_of_string s).

(** An optional minus sign, then hexadecimal digits. *)
Definition parse_x (s : string) : option Z :=
  match s with
  | String c s' =>
      if Ascii.eqb c "-" then option_map (fun n => - Z.of_N n) (N_of_digits s')
      else option_map Z.of_N (N_of_digits s)
  | EmptyString => None
  end.

(** *** Splitting at spaces *)

(** The pieces of a text between its spaces. *)
Fixpoint tokens (s : string) : list string :=
  match s with
  | EmptyString => [""]
  | String c s' =>
      if Ascii.eqb c " " then "" :: tokens s'
      else
        match tokens s' with
        | t :: ts => String c t :: ts
        | [] => [String c ""]
        end
  end%list.

(** ** A decoder for the text of [Instr.hex]

    [assembler.py] has no decoder.  [Decode] is the inverse that the
    round trip is stated with: it splits the text at the spaces, reads
    each word back, takes the four fields out of the first word and
    then one extension word for each unit that carries an operand. *)

Definition take_operand (unit : Z) (ws : list Z) : option (option Z * list Z) :=
  if carries_operand unit then
    match ws with
    | w :: rest => Some (Some w, rest)
    | [] => None
    end
  else Some (None, ws).

Definition Decode_words (ws : list Z) : option Instr.t :=
  match ws with
  | [] => None
  | w :: rest =>
      match take_operand (field_sunit w) rest with
      | None => None
      | Some (soperand, rest) =>
          match take_operand (field_dunit w) rest with
          | Some (doperand, []) =>
              Some (Instr.__init__ (field_sunit w) (field_si w) (field_dunit w) (field_di w)
                      soperand doperand)
          | _ => None
          end
      end
  end.

Fixpoint parse_words (l : list string) : option (list Z) :=
  match l with
  | [] => Some []
  | a :: l' =>
      match parse_x a, parse_words l' with
      | Some w, Some ws => Some (w :: ws)
      | _, _ => None
      end
  end.

Definition Decode (s : string) : option Instr.t :=
  match parse_words (tokens s) with
  | Some ws => Decode_words ws
  | None => None
  end.

(** ** [chunks] (assembler.py, lines 93-96) *)

(** [range(0, stop, step)] for a positive [step]: the [ceil(stop/step)]
    numbers 0, [step], 2 [step], ... below [stop]. *)
Definition range0 (stop step : nat) : list nat :=
  map (fun k => k * step)%nat (seq 0 ((stop + step - 1) / step)).

(** The slice [lst[i:j]] for [0 <= i <= j]; it stops at the end of the
    list. *)
Definition slice {A : Type} (lst : list A) (i j : nat) : list A :=
  firstn (j - i) (skipn i lst).

(** What the loop of [chunks] yields for a positive [n]: the slice
    [lst[i:i + n]] for each [i] of [range(0, len(lst), n)]. *)
Definition chunk_list {A : Type} (lst : list A) (n : nat) : list (list A) :=
  map (fun i => slice lst i (i + n)) (range0 (List.length lst) n).

(** [chunks(lst, n)], as the list of what the generator yields.  A
    step of 0 makes [range] raise [ValueError] ([None] here); with a
    negative step [range(0, len(lst), n)] is empty. *)
Definition chunks {A : Type} (lst : list A) (n : Z) : option (list (list A)) :=
  if (n =? 0)%Z then None
  else if (n <? 0)%Z then Some []%list
  else Some (chunk_list lst (Z.to_nat n)).

(** ** Words of 32 bits and units that print their index *)

(** An operand, when there is one, is a 32-bit value. *)
Definition operand32 (operand : option Z) : Prop :=
  forall w, operand = Some w -> 0 <= w < 2 ^ 32.

(** The units whose rendering in [Instr.asm] shows the index. *)
Definition prints_index (unit : Z) : bool :=
  (unit =? UNIT_STACK_INDEX)%Z || (unit =? UNIT_REGISTER)%Z ||
  (unit =? UNIT_MEMORY_IMMEDIATE)%Z || (unit =? UNIT_ABS_IMMEDIATE)%Z.

(** A hexadecimal digit or a space. *)
Definition is_word_char (c : ascii) : bool := is_hex_digit c || Ascii.eqb c " ".

(** ** [main] (assembler.py, lines 98-115) *)

Definition newline : string := String "010" "".

(** A list comprehension [[f(i) for i in l]] whose [f] may raise: the
    elements are computed from left to right and the first exception
    ends it. *)
Fixpoint comprehension {A B : Type} (f : A -> result B) (l : list A) : result (list B) :=
  match l with
  | [] => Ok []
  | a :: l' => b <- f a ;; bs <- comprehension f l' ;; Ok (b :: bs)
  end%list.

(** [string.join(words, sep)]; [sep] defaults to a single space. *)
Definition string_join (words : list string) (sep : string) : string :=
  String.concat sep words.

(** The loop of lines 110-112 over the chunks [chks]: [mem] is what has
    been written to the file so far.  When a [hex] raises, the loop
    ends and the file keeps what was written before. *)
Fixpoint write_chunks (chks : list (list Instr.t)) (mem : string) : string * result unit :=
  match chks with
  | [] => (mem, Ok tt)
  | x :: chks' =>
      match comprehension Instr.hex x with
      | Ok words => write_chunks chks' (mem ++ string_join words " " ++ newline)
      | Raise e => (mem, Raise e)
      end
  end%list.

(** Lines 108-113 for a program [prgm]: the text written to
    [bootmem.mem] and whether the loop completed.  [chunks(prgm, 4)] has
    a positive step, so it yields [chunk_list prgm 4]. *)
Definition write_mem (prgm : list Instr.t) : string * result unit :=
  write_chunks (chunk_list prgm 4) "".

(** Line 115 for a program [prgm]: the text given to [print]. *)
Definition listing (prgm : list Instr.t) : result string :=
  asms <- comprehension Instr.asm prgm ;; Ok (string_join asms newline).

(** The program of lines 99-106. *)
Definition prgm : list Instr.t :=
  [ Instr.__init__ UNIT_ABS_IMMEDIATE 0x666 UNIT_REGISTER 0 None None;
    Instr.__init__ UNIT_REGISTER 0 UNIT_ALU_LEFT 0 None None;
    Instr.__init__ UNIT_ABS_IMMEDIATE 0x123 UNIT_ALU_RIGHT 0 None None;
    Instr.__init__ UNIT_ABS_IMMEDIATE 0x01 UNIT_ALU_OPERATOR 0 None None;
    Instr.__init__ UNIT_ALU_RESULT 0 UNIT_REGISTER 1 None None;
    Instr.__init__ UNIT_REGISTER 1 UNIT_MEMORY_OPERAND 0 None (Some 0x543);
    Instr.__init__ UNIT_MEMORY_IMMEDIATE 0x543 UNIT_MEMORY_IMMEDIATE 0x666 None None ]%list.

(** [main]: the text written to [bootmem.mem] and the text printed
    ([print] ends it with a newline).  Opening and closing the file are
    not modelled. *)
Definition main : string * result string :=
  let (mem, written) := write_mem prgm in
  (mem, _ <- written ;; text <- listing prgm ;; Ok (text ++ newline)).

(** ** Reading a memory file back *)

(** The lines of a text: the pieces that end at a newline, and what
    follows the last newline when that is not empty. *)
Fixpoint lines (s : string) : list string :=
  match s with
  | EmptyString => []
  | String c s' =>
      if Ascii.eqb c "010" then "" :: lines s'
      else
        match lines s' with
        | l :: ls => String c l :: ls
        | [] => [String c ""]
        end
  end%list.

Definition not_newline (c : ascii) : bool := negb (Ascii.eqb c "010").

(** Instructions read one after the other from a sequence of words:
    each primary word tells how many extension words follow it.  [fuel]
    bounds the number of instructions. *)
Fixpoint Decode_stream (fuel : nat) (ws : list Z) : option (list Instr.t) :=
  match ws with
  | [] => Some []
  | w :: rest =>
      match fuel with
      | O => None
      | S fuel' =>
          match take_operand (field_sunit w) rest with
          | None => None
          | Some (soperand, rest) =>
              match take_operand (field_dunit w) rest with
              | None => None
              | Some (doperand, rest) =>
                  option_map
                    (cons (Instr.__init__ (field_sunit w) (field_si w)
                             (field_dunit w) (field_di w) soperand doperand))
                    (Decode_stream fuel' rest)
              end
          end
      end
  end%list.

(** The words of each line of a text. *)
Fixpoint parse_lines (ls : list string) : option (list (list Z)) :=
  match ls with
  | [] => Some []
  | l :: ls' =>
      match parse_words (tokens l), parse_lines ls' with
      | Some ws, Some wss => Some (ws :: wss)
      | _, _ => None
      end
  end%list.

(** The program a memory file holds. *)
Definition Decode_mem (text : string) : option (list Instr.t) :=
  match parse_lines (lines text) with
  | Some wss => Decode_stream (List.length (List.concat wss)) (List.concat wss)
  | None => None
  end.

(** The words of an instruction that has the operands it needs (no
    word when [Encode] raises). *)
Definition encoded (i : Instr.t) : list Z :=
  match Encode i with
  | Ok ws => ws
  | Raise _ => []%list
  end.

(** Both units have the operand they need. *)
Definition operands_given (i : Instr.t) : Prop :=
  operand_given (Instr.sunit i) (Instr.soperand i) /\
  operand_given (Instr.dunit i) (Instr.doperand i).

(** * Properties *)

(** ** Bits of the primary word *)

Lemma op_init sunit si dunit di (so do_ : option Z) :
  Instr.op (Instr.__init__ sunit si dunit di so do_) = primary sunit si dunit di.
Proof. unfold Instr.__init__, primary; simpl. reflexivity. Qed.

(** Bit [n] of the primary word, from the bits of the four arguments. *)
Lemma primary_testbit sunit si dunit di n :
  0 <= n ->
  Z.testbit (primary sunit si dunit di) n =
    Z.testbit sunit n || Z.testbit si (n - 4) ||
    Z.testbit dunit (n - 16) || Z.testbit di (n - 20).
Proof.
  intros Hn. unfold primary.
  rewrite !Z.lor_spec, !Z.shiftl_spec by assumption. reflexivity.
Qed.

(** A number below [2^k] has no bit at position [k] or above. *)
Lemma testbit_small x k n :
  0 <= x < 2 ^ k -> 0 <= k <= n -> Z.testbit x n = false.
Proof.
  intros Hx Hk.
  rewrite <- (Z.mod_small x (2 ^ k)) by assumption.
  apply Z.mod_pow2_bits_high. lia.
Qed.

Lemma testbit_unit u n : 0 <= u < 16 -> 4 <= n -> Z.testbit u n = false.
Proof. intros Hu Hn. apply (testbit_small u 4); [simpl; lia | lia]. Qed.

Lemma testbit_index x n : index12 x -> 12 <= n -> Z.testbit x n = false.
Proof. intros Hx Hn. apply (testbit_small x 12); [exact Hx | lia]. Qed.

Lemma land_15_testbit w n : 0 <= n -> Z.testbit (Z.land w 15) n = Z.testbit w n && (n <? 4)%Z.
Proof.
  intros Hn. change 15 with (Z.ones 4). rewrite Z.land_spec. f_equal.
  destruct (Z.ltb_spec n 4).
  - apply Z.ones_spec_low; lia.
  - apply Z.ones_spec_high; lia.
Qed.

Lemma land_4095_testbit w n :
  0 <= n -> Z.testbit (Z.land w 4095) n = Z.testbit w n && (n <? 12)%Z.
Proof.
  intros Hn. change 4095 with (Z.ones 12). rewrite Z.land_spec. f_equal.
  destruct (Z.ltb_spec n 12).
  - apply Z.ones_spec_low; lia.
  - apply Z.ones_spec_high; lia.
Qed.

Section Fields.

Variables sunit si dunit di : Z.
Hypothesis Hsu : 0 <= sunit < 16.
Hypothesis Hsi : index12 si.
Hypothesis Hdu : 0 <= dunit < 16.
Hypothesis Hdi : index12 di.

Let w := primary sunit si dunit di.

Ltac field_bits :=
  apply Z.bits_inj'; intros n Hn;
  rewrite ?land_15_testbit, ?land_4095_testbit, ?Z.shiftr_spec by assumption;
  unfold w; rewrite primary_testbit by lia.

Lemma field_sunit_primary : field_sunit w = sunit.
Proof.
  unfold field_sunit. field_bits.
  destruct (Z.ltb_spec n 4).
  - rewrite (Z.testbit_neg_r si), (Z.testbit_neg_r dunit), (Z.testbit_neg_r di) by lia.
    rewrite !orb_false_r, andb_true_r. reflexivity.
  - rewrite andb_false_r. symmetry. apply testbit_unit; assumption.
Qed.

Lemma field_si_primary : field_si w = si.
Proof.
  unfold field_si. field_bits.
  replace (n + 4 - 4) with n by lia.
  rewrite (testbit_unit sunit) by (assumption || lia).
  destruct (Z.ltb_spec n 12).
  - rewrite (Z.testbit_neg_r dunit), (Z.testbit_neg_r di) by lia.
    rewrite !orb_false_r, andb_true_r. reflexivity.
  - rewrite andb_false_r. symmetry. apply testbit_index; assumption.
Qed.

Lemma field_dunit_primary : field_dunit w = dunit.
Proof.
  unfold field_dunit. field_bits.
  replace (n + 16 - 16) with n by lia.
  rewrite (testbit_unit sunit), (testbit_index si) by (assumption || lia).
  destruct (Z.ltb_spec n 4).
  - rewrite (Z.testbit_neg_r di) by lia.
    rewrite !orb_false_r, andb_true_r. reflexivity.
  - rewrite andb_false_r. symmetry. apply testbit_unit; assumption.
Qed.

Lemma field_di_primary : field_di w = di.
Proof.
  unfold field_di. field_bits.
  replace (n + 20 - 20) with n by lia.
  rewrite (testbit_unit sunit), (testbit_index si), (testbit_unit dunit)
    by (assumption || lia).
  destruct (Z.ltb_spec n 12).
  - rewrite andb_true_r. reflexivity.
  - rewrite andb_false_r. symmetry. apply testbit_index; assumption.
Qed.

(** Disjoint fields: the [|] of the constructor is an addition. *)
Lemma primary_sum : w = sunit + si * 2 ^ 4 + dunit * 2 ^ 16 + di * 2 ^ 20.
Proof.
  unfold w, primary.
  assert (Hdisj : forall a b k, 0 <= k -> 0 <= a < 2 ^ k ->
            Z.lor a (Z.shiftl b k) = a + b * 2 ^ k).
  { intros a b k Hk Ha.
    rewrite <- Z.shiftl_mul_pow2 by assumption.
    rewrite <- Z.lxor_lor, <- Z.add_nocarry_lxor; try reflexivity.
    all: apply Z.bits_inj'; intros n Hn; rewrite Z.land_spec, Z.bits_0;
      destruct (Z.ltb_spec n k);
      [ rewrite (Z.shiftl_spec_low b) by assumption; apply andb_false_r
      | rewrite (testbit_small a k n) by lia; reflexivity ]. }
  unfold index12 in *.
  rewrite (Hdisj sunit si 4) by lia.
  rewrite (Hdisj _ dunit 16) by lia.
  rewrite (Hdisj _ di 20) by lia.
  reflexivity.
Qed.

Lemma primary_range : 0 <= w < 2 ^ 32.
Proof. rewrite primary_sum. unfold index12 in *. lia. Qed.

End Fields.

(** ** Strings *)

Lemma append_assoc (a b c : string) : (a ++ b) ++ c = a ++ (b ++ c).
Proof. induction a as [|x a IH]; simpl; [reflexivity | now rewrite IH]. Qed.

Lemma append_nil_r (a : string) : a ++ "" = a.
Proof. induction a as [|x a IH]; simpl; [reflexivity | now rewrite IH]. Qed.

Lemma all_chars_cons P c s : all_chars P (String c s) = P c && all_chars P s.
Proof. reflexivity. Qed.

Lemma all_chars_app P a b : all_chars P (a ++ b) = all_chars P a && all_chars P b.
Proof.
  induction a as [|x a IH]; simpl; [reflexivity | now rewrite IH, andb_assoc].
Qed.

Lemma all_chars_weaken (P Q : ascii -> bool) s :
  (forall c, P c = true -> Q c = true) -> all_chars P s = true -> all_chars Q s = true.
Proof.
  intros HPQ. induction s as [|x s IH]; simpl; [reflexivity |].
  rewrite !andb_true_iff. intros [Hx Hs]. split; auto.
Qed.

Lemma hex_digits_chars n : all_chars is_hex_digit (hex_digits n) = true.
Proof.
  unfold hex_digits. generalize (N.to_hex_uint n) as d.
  induction d; simpl; auto.
Qed.

Lemma zeros_chars k : all_chars is_hex_digit (zeros k) = true.
Proof. induction k; simpl; auto. Qed.

Lemma format_x_chars width n : all_chars is_format_char (format_x width n) = true.
Proof.
  unfold format_x.
  assert (Hw : forall s, all_chars is_hex_digit s = true -> all_chars is_format_char s = true).
  { intros s. apply all_chars_weaken. intros c Hc. unfold is_format_char. now rewrite Hc. }
  rewrite !all_chars_app, (Hw _ (zeros_chars _)), (Hw _ (hex_digits_chars _)).
  destruct (n <? 0)%Z; reflexivity.
Qed.

(** *** [parse_x] reads [format_x] back *)

Lemma N_of_digits_zeros k s : N_of_digits (zeros k ++ s) = N_of_digits s.
Proof.
  unfold N_of_digits. induction k as [|k IH]; simpl; [reflexivity |].
  rewrite <- IH. destruct (NilEmpty.uint_of_string (zeros k ++ s)); reflexivity.
Qed.

Lemma N_of_digits_hex_digits n : N_of_digits (hex_digits n) = Some n.
Proof.
  unfold N_of_digits, hex_digits. rewrite NilEmpty.usu. simpl.
  now rewrite HexadecimalN.Unsigned.of_to.
Qed.

Lemma hex_digits_not_empty n : hex_digits n <> "".
Proof.
  unfold hex_digits. destruct n as [|p]; simpl; [discriminate |].
  pose proof (HexadecimalPos.Unsigned.to_uint_nonnil p) as Hp.
  destruct (Pos.to_hex_uint p); simpl; congruence.
Qed.

Theorem parse_x_format_x width n : parse_x (format_x width n) = Some n.
Proof.
  unfold format_x.
  destruct (Z.ltb_spec n 0) as [Hneg | Hpos]; simpl.
  - rewrite N_of_digits_zeros, N_of_digits_hex_digits. simpl.
    f_equal. rewrite N2Z.inj_abs_N. lia.
  - set (k := (width - 0 - String.length (hex_digits (Z.abs_N n)))%nat).
    assert (Hv : option_map Z.of_N (N_of_digits (zeros k ++ hex_digits (Z.abs_N n))) = Some n).
    { rewrite N_of_digits_zeros, N_of_digits_hex_digits. simpl.
      f_equal. rewrite N2Z.inj_abs_N. lia. }
    assert (Hc : all_chars is_hex_digit (zeros k ++ hex_digits (Z.abs_N n)) = true).
    { now rewrite all_chars_app, zeros_chars, hex_digits_chars. }
    assert (Hne : zeros k ++ hex_digits (Z.abs_N n) <> "").
    { destruct k; simpl; [apply hex_digits_not_empty | discriminate]. }
    destruct (zeros k ++ hex_digits (Z.abs_N n)) as [|c r]; [congruence |].
    simpl in Hc. apply andb_true_iff in Hc as [Hc _].
    unfold parse_x. destruct (Ascii.eqb_spec c "-") as [-> | _]; [discriminate | exact Hv].
Qed.

Corollary format_x_inj width n m : format_x width n = format_x width m -> n = m.
Proof.
  intros H. apply (f_equal parse_x) in H.
  rewrite !parse_x_format_x in H. congruence.
Qed.

(** *** [tokens] splits what [concat] joined *)

Lemma tokens_one a : all_chars not_space a = true -> tokens a = [a].
Proof.
  induction a as [|x a IH]; simpl; [reflexivity |].
  unfold not_space at 1. intros H. apply andb_true_iff in H as [Hx Ha].
  destruct (Ascii.eqb x " "); [discriminate |]. now rewrite IH.
Qed.

Lemma tokens_app a b :
  all_chars not_space a = true -> tokens (a ++ String " " b) = (a :: tokens b)%list.
Proof.
  induction a as [|x a IH]; simpl; [reflexivity |].
  unfold not_space at 1. intros H. apply andb_true_iff in H as [Hx Ha].
  destruct (Ascii.eqb x " "); [discriminate |]. now rewrite IH.
Qed.

Lemma tokens_concat (l : list string) :
  l <> []%list -> Forall (fun a => all_chars not_space a = true) l ->
  tokens (String.concat " " l) = l.
Proof.
  induction l as [|a l IH]; [congruence |].
  intros _ Hall. inversion Hall as [|? ? Ha Hl]; subst.
  destruct l as [|b l].
  - simpl. now apply tokens_one.
  - change (String.concat " " (a :: b :: l)) with (a ++ String " " (String.concat " " (b :: l))).
    rewrite tokens_app by assumption. f_equal. apply IH; [discriminate | assumption].
Qed.

Lemma format_x_no_space width n : all_chars not_space (format_x width n) = true.
Proof.
  apply (all_chars_weaken is_format_char); [| apply format_x_chars].
  intros c. destruct (Ascii.eqb_spec c " ") as [-> | Hc]; [discriminate |].
  unfold not_space. intros _. destruct (Ascii.eqb_spec c " "); [contradiction | reflexivity].
Qed.

(** ** [Instr.hex] prints the words of [Encode] *)

Lemma carries_operand_spec unit :
  carries_operand unit = true <-> unit = UNIT_MEMORY_OPERAND \/ unit = UNIT_ABS_OPERAND.
Proof.
  unfold carries_operand. rewrite orb_true_iff, !Z.eqb_eq. reflexivity.
Qed.

Lemma hex_Encode (self : Instr.t) :
  Instr.hex self = (ws <- Encode self ;; Ok (render_words ws)).
Proof.
  unfold Instr.hex, Encode, extension, carries_operand, render_words.
  destruct ((Instr.sunit self =? UNIT_MEMORY_OPERAND)%Z || (Instr.sunit self =? UNIT_ABS_OPERAND)%Z);
    [destruct (Instr.soperand self) | ];
    (destruct ((Instr.dunit self =? UNIT_MEMORY_OPERAND)%Z || (Instr.dunit self =? UNIT_ABS_OPERAND)%Z);
      [destruct (Instr.doperand self) | ]);
    simpl; rewrite ?append_assoc; reflexivity.
Qed.

(** With the operands it needs, [Encode] returns. *)
Lemma extension_given unit operand :
  operand_given unit operand ->
  exists ext, extension unit operand = Ok ext /\
    (carries_operand unit = true -> exists w, operand = Some w /\ ext = [w]) /\
    (carries_operand unit = false -> ext = []).
Proof.
  unfold operand_given, extension. intros H.
  destruct (carries_operand unit).
  - destruct operand as [w|]; [| now destruct H].
    exists [w]. split; [reflexivity | split]; [intros _; now exists w | discriminate].
  - exists []. split; [reflexivity | split]; [discriminate | reflexivity].
Qed.

(** ** Round trip *)

Lemma parse_words_format ws : parse_words (map (format_x 8) ws) = Some ws.
Proof.
  induction ws as [|w ws IH]; simpl; [reflexivity |].
  now rewrite parse_x_format_x, IH.
Qed.

Lemma Decode_render ws : ws <> [] -> Decode (render_words ws) = Decode_words ws.
Proof.
  intros Hne. unfold Decode, render_words.
  rewrite tokens_concat.
  - now rewrite parse_words_format.
  - destruct ws; [congruence | discriminate].
  - apply Forall_forall. intros a Ha. apply in_map_iff in Ha as [w [<- _]].
    apply format_x_no_space.
Qed.

Lemma unit_code_lt16 u : unit_code u -> 0 <= u < 16.
Proof. unfold unit_code. lia. Qed.

Lemma operand_iff_given unit operand : operand_iff unit operand -> operand_given unit operand.
Proof. intros [H _]. exact H. Qed.

Lemma take_operand_extension unit operand ext rest :
  operand_iff unit operand -> extension unit operand = Ok ext ->
  take_operand unit (ext ++ rest) = Some (operand, rest).
Proof.
  unfold operand_iff, extension, take_operand. intros [Hto Hfrom].
  destruct (carries_operand unit).
  - destruct operand as [w|]; [| discriminate]. intros [= <-]. reflexivity.
  - intros [= <-]. destruct operand as [w|]; [| reflexivity].
    assert (false = true) by (apply Hfrom; discriminate). discriminate.
Qed.

Lemma Decode_words_Encode i ws :
  well_formed i -> Encode i = Ok ws -> Decode_words ws = Some i.
Proof.
  intros [Hc Hsu Hsi Hdu Hdi Hso Hdo]. unfold constructed in Hc. unfold Encode.
  destruct (extension (Instr.sunit i) (Instr.soperand i)) as [src|] eqn:Esrc; [| discriminate].
  destruct (extension (Instr.dunit i) (Instr.doperand i)) as [dst|] eqn:Edst; [| discriminate].
  simpl. intros [= <-].
  assert (Hop : Instr.op i = primary (Instr.sunit i) (Instr.si i) (Instr.dunit i) (Instr.di i)).
  { pose proof (f_equal Instr.op Hc) as Hop. now rewrite op_init in Hop. }
  apply unit_code_lt16 in Hsu, Hdu.
  unfold Decode_words. rewrite Hop.
  rewrite field_sunit_primary, field_si_primary, field_dunit_primary, field_di_primary
    by assumption.
  rewrite (take_operand_extension _ _ _ _ Hso Esrc).
  rewrite <- (app_nil_r dst).
  rewrite (take_operand_extension _ _ _ _ Hdo Edst).
  now rewrite <- Hc.
Qed.

(** C1. Round trip: for a well-formed instruction (built by the
    constructor, unit codes in 0..12, indices in 12 bits, an operand
    present exactly for the units MemoryOperand and AbsoluteOperand),
    [Instr.hex] returns a text and decoding that text gives the
    instruction back; hence [Instr.hex] is injective on well-formed
    instructions. *)
Theorem hex_round_trip (i : Instr.t) :
  well_formed i ->
  (exists s, Instr.hex i = Ok s /\ Decode s = Some i) /\
  (forall j, well_formed j -> Instr.hex j = Instr.hex i -> j = i).
Proof.
  assert (Hrt : forall k, well_formed k -> exists s, Instr.hex k = Ok s /\ Decode s = Some k).
  { intros k Hk.
    destruct (extension_given _ _ (operand_iff_given _ _ (wf_soperand k Hk)))
      as [src [Esrc _]].
    destruct (extension_given _ _ (operand_iff_given _ _ (wf_doperand k Hk)))
      as [dst [Edst _]].
    assert (HE : Encode k = Ok (Instr.op k :: src ++ dst)).
    { unfold Encode. rewrite Esrc, Edst. reflexivity. }
    exists (render_words (Instr.op k :: src ++ dst)). split.
    - rewrite hex_Encode, HE. reflexivity.
    - rewrite Decode_render by discriminate. now apply Decode_words_Encode. }
  intros Hi. split; [now apply Hrt |].
  intros j Hj Heq.
  destruct (Hrt i Hi) as [s [Hs Ds]]. destruct (Hrt j Hj) as [s' [Hs' Ds']].
  rewrite Hs, Hs' in Heq. injection Heq as ->. congruence.
Qed.

Lemma hex_round_trip_witness :
  let i := Instr.__init__ UNIT_REGISTER 1 UNIT_MEMORY_OPERAND 0 None (Some 0x543) in
  well_formed i /\
  (exists s, Instr.hex i = Ok s /\ Decode s = Some i) /\
  (forall j, well_formed j -> Instr.hex j = Instr.hex i -> j = i).
Proof.
  intros i.
  assert (Hi : well_formed i).
  { constructor.
    - reflexivity.
    - unfold unit_code, i, UNIT_REGISTER; simpl; lia.
    - unfold index12, i; simpl; lia.
    - unfold unit_code, i, UNIT_MEMORY_OPERAND; simpl; lia.
    - unfold index12, i; simpl; lia.
    - split; [discriminate | intros H; now elim H].
    - split; [discriminate | reflexivity]. }
  split; [exact Hi | exact (hex_round_trip i Hi)].
Defined.

(** ** The layout of the primary word *)

(** The first word [Encode] gives is [self.op], whatever the operands. *)
Lemma Encode_head i ws : Encode i = Ok ws -> exists rest, ws = Instr.op i :: rest.
Proof.
  unfold Encode.
  destruct (extension (Instr.sunit i) (Instr.soperand i)) as [src|]; [| discriminate].
  destruct (extension (Instr.dunit i) (Instr.doperand i)) as [dst|]; [| discriminate].
  simpl. intros [= <-]. now exists (src ++ dst)%list.
Qed.

(** C2. For unit codes in 0..12 and indices that fit in 12 bits, the
    primary word (the first word of [Encode]) is
    [sunit | (si << 4) | (dunit << 16) | (di << 20)]; it is a 32-bit
    word whose bits 0-3 are [sunit], bits 4-15 [si], bits 16-19 [dunit]
    and bits 20-31 [di]. *)
Theorem primary_word_layout (sunit si dunit di : Z) (soperand doperand : option Z) :
  unit_code sunit -> index12 si -> unit_code dunit -> index12 di ->
  let i := Instr.__init__ sunit si dunit di soperand doperand in
  let w := Z.lor (Z.lor (Z.lor sunit (Z.shiftl si 4)) (Z.shiftl dunit 16)) (Z.shiftl di 20) in
  (forall ws, Encode i = Ok ws -> exists rest, ws = w :: rest) /\
  Instr.op i = w /\
  0 <= w < 2 ^ 32 /\
  Z.land w 15 = sunit /\
  Z.land (Z.shiftr w 4) 4095 = si /\
  Z.land (Z.shiftr w 16) 15 = dunit /\
  Z.land (Z.shiftr w 20) 4095 = di.
Proof.
  intros Hsu Hsi Hdu Hdi i w.
  apply unit_code_lt16 in Hsu, Hdu.
  assert (Hop : Instr.op i = w) by apply op_init.
  split; [| split; [exact Hop |]].
  - intros ws Hws. rewrite <- Hop. now apply Encode_head.
  - split; [now apply primary_range |].
    split; [now apply field_sunit_primary |].
    split; [now apply field_si_primary |].
    split; [now apply field_dunit_primary | now apply field_di_primary].
Qed.

Lemma primary_word_layout_witness :
  (let i := Instr.__init__ 11 0x666 3 0 None None in
   let w := Z.lor (Z.lor (Z.lor 11 (Z.shiftl 0x666 4)) (Z.shiftl 3 16)) (Z.shiftl 0 20) in
   (forall ws, Encode i = Ok ws -> exists rest, ws = w :: rest) /\
   Instr.op i = w /\
   0 <= w < 2 ^ 32 /\
   Z.land w 15 = 11 /\
   Z.land (Z.shiftr w 4) 4095 = 0x666 /\
   Z.land (Z.shiftr w 16) 15 = 3 /\
   Z.land (Z.shiftr w 20) 4095 = 0).
Proof.
  apply (primary_word_layout 11 0x666 3 0 None None);
    unfold unit_code, index12; lia.
Defined.

(** ** Extension words *)

(** C3. For an instruction that holds the operands its units need,
    [Instr.hex] prints, in this order, the primary word, then
    [soperand] itself iff [sunit] is MemoryOperand or AbsoluteOperand,
    then [doperand] itself iff [dunit] is one of the two: 1, 2 or 3
    words, 1 when neither unit carries an operand and 2 when exactly one
    does. *)
Theorem Encode_extension_words (i : Instr.t) :
  operand_given (Instr.sunit i) (Instr.soperand i) ->
  operand_given (Instr.dunit i) (Instr.doperand i) ->
  exists src dst : list Z,
    Encode i = Ok (Instr.op i :: src ++ dst)%list /\
    Instr.hex i = Ok (render_words (Instr.op i :: src ++ dst)%list) /\
    (Instr.sunit i = UNIT_MEMORY_OPERAND \/ Instr.sunit i = UNIT_ABS_OPERAND ->
       exists w, Instr.soperand i = Some w /\ src = [w]) /\
    (~ (Instr.sunit i = UNIT_MEMORY_OPERAND \/ Instr.sunit i = UNIT_ABS_OPERAND) ->
       src = []) /\
    (Instr.dunit i = UNIT_MEMORY_OPERAND \/ Instr.dunit i = UNIT_ABS_OPERAND ->
       exists w, Instr.doperand i = Some w /\ dst = [w]) /\
    (~ (Instr.dunit i = UNIT_MEMORY_OPERAND \/ Instr.dunit i = UNIT_ABS_OPERAND) ->
       dst = []) /\
    (1 <= List.length (Instr.op i :: src ++ dst)%list <= 3)%nat /\
    (carries_operand (Instr.sunit i) = false -> carries_operand (Instr.dunit i) = false ->
       List.length (Instr.op i :: src ++ dst)%list = 1%nat) /\
    (carries_operand (Instr.sunit i) <> carries_operand (Instr.dunit i) ->
       List.length (Instr.op i :: src ++ dst)%list = 2%nat) /\
    (carries_operand (Instr.sunit i) = true -> carries_operand (Instr.dunit i) = true ->
       List.length (Instr.op i :: src ++ dst)%list = 3%nat).
Proof.
  intros Hso Hdo.
  destruct (extension_given _ _ Hso) as [src [Esrc [Ssome Snone]]].
  destruct (extension_given _ _ Hdo) as [dst [Edst [Dsome Dnone]]].
  exists src, dst.
  assert (HE : Encode i = Ok (Instr.op i :: src ++ dst)%list).
  { unfold Encode. rewrite Esrc, Edst. reflexivity. }
  split; [exact HE |].
  split; [rewrite hex_Encode, HE; reflexivity |].
  rewrite <- !carries_operand_spec.
  split; [exact Ssome |].
  split; [intros H; apply Snone; now destruct (carries_operand (Instr.sunit i)) |].
  split; [exact Dsome |].
  split; [intros H; apply Dnone; now destruct (carries_operand (Instr.dunit i)) |].
  destruct (carries_operand (Instr.sunit i)), (carries_operand (Instr.dunit i)).
  - destruct (Ssome eq_refl) as [a [_ ->]], (Dsome eq_refl) as [b [_ ->]].
    simpl. repeat split; try lia; try congruence.
  - destruct (Ssome eq_refl) as [a [_ ->]]. rewrite (Dnone eq_refl).
    simpl. repeat split; try lia; try congruence.
  - destruct (Dsome eq_refl) as [b [_ ->]]. rewrite (Snone eq_refl).
    simpl. repeat split; try lia; try congruence.
  - rewrite (Snone eq_refl), (Dnone eq_refl).
    simpl. repeat split; try lia; try congruence.
Qed.

Lemma Encode_extension_words_witness :
  let i := Instr.__init__ UNIT_REGISTER 1 UNIT_MEMORY_OPERAND 0 None (Some 0x543) in
  exists src dst : list Z,
    Encode i = Ok (Instr.op i :: src ++ dst)%list /\
    Instr.hex i = Ok (render_words (Instr.op i :: src ++ dst)%list) /\
    (Instr.sunit i = UNIT_MEMORY_OPERAND \/ Instr.sunit i = UNIT_ABS_OPERAND ->
       exists w, Instr.soperand i = Some w /\ src = [w]) /\
    (~ (Instr.sunit i = UNIT_MEMORY_OPERAND \/ Instr.sunit i = UNIT_ABS_OPERAND) ->
       src = []) /\
    (Instr.dunit i = UNIT_MEMORY_OPERAND \/ Instr.dunit i = UNIT_ABS_OPERAND ->
       exists w, Instr.doperand i = Some w /\ dst = [w]) /\
    (~ (Instr.dunit i = UNIT_MEMORY_OPERAND \/ Instr.dunit i = UNIT_ABS_OPERAND) ->
       dst = []) /\
    (1 <= List.length (Instr.op i :: src ++ dst)%list <= 3)%nat /\
    (carries_operand (Instr.sunit i) = false -> carries_operand (Instr.dunit i) = false ->
       List.length (Instr.op i :: src ++ dst)%list = 1%nat) /\
    (carries_operand (Instr.sunit i) <> carries_operand (Instr.dunit i) ->
       List.length (Instr.op i :: src ++ dst)%list = 2%nat) /\
    (carries_operand (Instr.sunit i) = true -> carries_operand (Instr.dunit i) = true ->
       List.length (Instr.op i :: src ++ dst)%list = 3%nat).
Proof.
  intros i. apply (Encode_extension_words i).
  - unfold operand_given, i; simpl. discriminate.
  - unfold operand_given, i; simpl. discriminate.
Defined.

(** The second example of the specification: two words, the second one
    the operand. *)
Example hex_register_to_memory :
  let i := Instr.__init__ UNIT_REGISTER 1 UNIT_MEMORY_OPERAND 0 None (Some 0x543) in
  Encode i = Ok [0x00090013; 0x543] /\
  Instr.hex i = Ok "00090013 00000543" /\
  Instr.asm i = Ok "*(00000543) := R01".
Proof. repeat split. Qed.

(** Without the operand its unit needs, [Instr.hex] raises. *)
Example hex_missing_operand :
  Instr.hex (Instr.__init__ UNIT_MEMORY_OPERAND 0 UNIT_REGISTER 0 None None) = Raise FormatError.
Proof. reflexivity. Qed.

(** ** Indices out of range *)

(** Below bit 16 the primary word only sees [si] modulo [2^12]. *)
Lemma primary_low16 sunit si dunit di di' n :
  0 <= n < 16 ->
  Z.testbit (primary sunit si dunit di) n =
  Z.testbit (primary sunit (si mod 2 ^ 12) dunit di') n.
Proof.
  intros Hn. rewrite !primary_testbit by lia.
  rewrite (Z.mod_pow2_bits_low si) by lia.
  rewrite (Z.testbit_neg_r di), (Z.testbit_neg_r di') by lia.
  reflexivity.
Qed.

(** Below bit 32 the primary word only sees [di] modulo [2^12]. *)
Lemma primary_low32 sunit si dunit di n :
  0 <= n < 32 ->
  Z.testbit (primary sunit si dunit di) n =
  Z.testbit (primary sunit si dunit (di mod 2 ^ 12)) n.
Proof.
  intros Hn. rewrite !primary_testbit by lia.
  rewrite (Z.mod_pow2_bits_low di) by lia.
  reflexivity.
Qed.

Lemma mod_pow2_ext a b k :
  0 <= k -> (forall n, 0 <= n < k -> Z.testbit a n = Z.testbit b n) ->
  a mod 2 ^ k = b mod 2 ^ k.
Proof.
  intros Hk H. apply Z.bits_inj'. intros n Hn.
  destruct (Z.ltb_spec n k).
  - rewrite !Z.mod_pow2_bits_low by assumption. apply H. lia.
  - rewrite !Z.mod_pow2_bits_high by lia. reflexivity.
Qed.

(** C4, as the code has it.  The constructor neither masks nor rejects
    an index: it stores both indices as given and ORs their shifts into
    an unbounded integer.  The instruction is the one built from the
    indices modulo [2^12] exactly when both already fit in 12 bits.  For any
    indices the primary word agrees with the masked one on bits 0-15,
    and, when [si] fits, on bits 0-31 (what exceeds 12 bits of [di]
    lands at bit 32 and above). *)
Theorem init_keeps_indices (sunit si dunit di : Z) (soperand doperand : option Z) :
  let i := Instr.__init__ sunit si dunit di soperand doperand in
  let m := Instr.__init__ sunit (si mod 2 ^ 12) dunit (di mod 2 ^ 12) soperand doperand in
  Instr.si i = si /\ Instr.di i = di /\
  (index12 si /\ index12 di <-> i = m) /\
  (Instr.op i) mod 2 ^ 16 = (Instr.op m) mod 2 ^ 16 /\
  (index12 si -> (Instr.op i) mod 2 ^ 32 = (Instr.op m) mod 2 ^ 32).
Proof.
  intros i m. unfold i, m. rewrite !op_init.
  split; [reflexivity |]. split; [reflexivity |].
  split; [| split].
  - unfold index12. split.
    + intros [Hsi Hdi]. now rewrite !Z.mod_small by assumption.
    + intros H.
      pose proof (f_equal Instr.si H) as Esi. pose proof (f_equal Instr.di H) as Edi.
      simpl in Esi, Edi. rewrite Esi, Edi.
      split; apply Z.mod_pos_bound; lia.
  - apply mod_pow2_ext; [lia |]. intros n Hn. now apply primary_low16.
  - unfold index12. intros Hsi. rewrite (Z.mod_small si) by assumption.
    apply mod_pow2_ext; [lia |]. intros n Hn. now apply primary_low32.
Qed.

Lemma init_keeps_indices_witness :
  let i := Instr.__init__ 3 5 3 4097 None None in
  let m := Instr.__init__ 3 (5 mod 2 ^ 12) 3 (4097 mod 2 ^ 12) None None in
  index12 5 /\ (Instr.op i) mod 2 ^ 32 = (Instr.op m) mod 2 ^ 32.
Proof.
  assert (H5 : index12 5) by (unfold index12; lia).
  split; [exact H5 |].
  exact (proj2 (proj2 (proj2 (proj2 (init_keeps_indices 3 5 3 4097 None None)))) H5).
Defined.

(** C4 fails as stated: the index 4096 is not taken modulo [2^12]; it
    sets bit 16, which belongs to the destination unit, and it is
    disassembled as it was given. *)
Lemma init_does_not_mask :
  Instr.hex (Instr.__init__ 0 4096 0 0 None None)
    <> Instr.hex (Instr.__init__ 0 (4096 mod 2 ^ 12) 0 0 None None) /\
  Instr.hex (Instr.__init__ 0 4096 0 0 None None) = Ok "00010000" /\
  Instr.hex (Instr.__init__ 0 (4096 mod 2 ^ 12) 0 0 None None) = Ok "00000000" /\
  field_dunit (Instr.op (Instr.__init__ 0 4096 0 0 None None)) = 1 /\
  Instr.asm (Instr.__init__ UNIT_ABS_IMMEDIATE 4096 UNIT_REGISTER 0 None None)
    = Ok "R00 := #001000".
Proof. split; [discriminate | repeat split]. Qed.

(** ** Isolation of the index fields *)

Lemma primary_outside_si sunit si si' dunit di n :
  index12 si -> index12 si' -> ~ (4 <= n < 16) ->
  Z.testbit (primary sunit si dunit di) n = Z.testbit (primary sunit si' dunit di) n.
Proof.
  intros Hsi Hsi' Hn.
  destruct (Z.lt_ge_cases n 0) as [Hneg | Hpos].
  - now rewrite !Z.testbit_neg_r by assumption.
  - rewrite !primary_testbit by assumption.
    destruct (Z.lt_ge_cases n 4).
    + now rewrite (Z.testbit_neg_r si), (Z.testbit_neg_r si') by lia.
    + now rewrite (testbit_index si), (testbit_index si') by (assumption || lia).
Qed.

Lemma primary_outside_di sunit si dunit di di' n :
  index12 di -> index12 di' -> ~ (20 <= n < 32) ->
  Z.testbit (primary sunit si dunit di) n = Z.testbit (primary sunit si dunit di') n.
Proof.
  intros Hdi Hdi' Hn.
  destruct (Z.lt_ge_cases n 0) as [Hneg | Hpos].
  - now rewrite !Z.testbit_neg_r by assumption.
  - rewrite !primary_testbit by assumption.
    destruct (Z.lt_ge_cases n 20).
    + now rewrite (Z.testbit_neg_r di), (Z.testbit_neg_r di') by lia.
    + now rewrite (testbit_index di), (testbit_index di') by (assumption || lia).
Qed.

Lemma outside_si_mask_testbit n : 4 <= n < 16 -> Z.testbit outside_si_mask n = false.
Proof.
  intros Hn. unfold outside_si_mask.
  rewrite Z.lor_spec, Z.shiftl_spec_low by lia.
  rewrite (testbit_small 15 4) by lia. reflexivity.
Qed.

Lemma outside_di_mask_testbit n : 20 <= n -> Z.testbit outside_di_mask n = false.
Proof. intros Hn. apply Z.ones_spec_high. lia. Qed.

(** C5. Two instructions that differ only in one index, both values
    fitting in 12 bits, have primary words that agree on every bit
    outside that index's field: outside bits 4-15 for [si], outside bits
    20-31 for [di]; in particular on the 20 remaining bits of the 32-bit
    word. *)
Theorem index_field_isolation
    (sunit dunit si si' di di' : Z) (soperand doperand : option Z) :
  index12 si -> index12 si' -> index12 di -> index12 di' ->
  let i := Instr.__init__ sunit si dunit di soperand doperand in
  let i_si := Instr.__init__ sunit si' dunit di soperand doperand in
  let i_di := Instr.__init__ sunit si dunit di' soperand doperand in
  (forall n, ~ (4 <= n < 16) ->
     Z.testbit (Instr.op i) n = Z.testbit (Instr.op i_si) n) /\
  (forall n, ~ (20 <= n < 32) ->
     Z.testbit (Instr.op i) n = Z.testbit (Instr.op i_di) n) /\
  Z.land (Instr.op i) outside_si_mask = Z.land (Instr.op i_si) outside_si_mask /\
  Z.land (Instr.op i) outside_di_mask = Z.land (Instr.op i_di) outside_di_mask.
Proof.
  intros Hsi Hsi' Hdi Hdi' i i_si i_di. unfold i, i_si, i_di. rewrite !op_init.
  split; [intros n Hn; now apply primary_outside_si |].
  split; [intros n Hn; now apply primary_outside_di |].
  split; apply Z.bits_inj'; intros n Hn; rewrite !Z.land_spec.
  - destruct (Z.lt_ge_cases n 4); [| destruct (Z.lt_ge_cases n 16)].
    + f_equal. apply primary_outside_si; (assumption || lia).
    + rewrite outside_si_mask_testbit by lia. now rewrite !andb_false_r.
    + f_equal. apply primary_outside_si; (assumption || lia).
  - destruct (Z.lt_ge_cases n 20).
    + f_equal. apply primary_outside_di; (assumption || lia).
    + rewrite outside_di_mask_testbit by lia. now rewrite !andb_false_r.
Qed.

Lemma index_field_isolation_witness :
  let i := Instr.__init__ 11 0x666 3 1 None None in
  let i_si := Instr.__init__ 11 0x123 3 1 None None in
  let i_di := Instr.__init__ 11 0x666 3 0xfff None None in
  (forall n, ~ (4 <= n < 16) ->
     Z.testbit (Instr.op i) n = Z.testbit (Instr.op i_si) n) /\
  (forall n, ~ (20 <= n < 32) ->
     Z.testbit (Instr.op i) n = Z.testbit (Instr.op i_di) n) /\
  Z.land (Instr.op i) outside_si_mask = Z.land (Instr.op i_si) outside_si_mask /\
  Z.land (Instr.op i) outside_di_mask = Z.land (Instr.op i_di) outside_di_mask.
Proof.
  apply (index_field_isolation 11 3 0x666 0x123 1 0xfff None None);
    unfold index12; lia.
Defined.

(** ** The operands and the primary word *)

Lemma hex_head i s :
  Instr.hex i = Ok s -> exists rest, s = format_x 8 (Instr.op i) ++ rest.
Proof.
  rewrite hex_Encode. destruct (Encode i) as [ws|] eqn:E; [| discriminate].
  destruct (Encode_head _ _ E) as [rest ->]. simpl. intros [= <-].
  unfold render_words. destruct rest as [|w rest].
  - exists "". simpl. now rewrite append_nil_r.
  - eexists. reflexivity.
Qed.

(** C10. The primary word depends on the units and the indices only: two
    instructions built with the same units and indices and any operands
    have the same [op], the same first word in [Encode] and the same
    first printed word in [Instr.hex]. *)
Theorem primary_word_ignores_operands
    (sunit si dunit di : Z) (soperand doperand soperand' doperand' : option Z) :
  let i := Instr.__init__ sunit si dunit di soperand doperand in
  let j := Instr.__init__ sunit si dunit di soperand' doperand' in
  Instr.op i = Instr.op j /\
  (forall ws ws', Encode i = Ok ws -> Encode j = Ok ws' ->
     exists rest rest', ws = Instr.op i :: rest /\ ws' = Instr.op i :: rest') /\
  (forall s s', Instr.hex i = Ok s -> Instr.hex j = Ok s' ->
     exists rest rest',
       s = format_x 8 (Instr.op i) ++ rest /\ s' = format_x 8 (Instr.op i) ++ rest').
Proof.
  intros i j.
  assert (Hop : Instr.op i = Instr.op j) by (unfold i, j; now rewrite !op_init).
  split; [exact Hop |]. split.
  - intros ws ws' Hi Hj.
    destruct (Encode_head _ _ Hi) as [rest ->], (Encode_head _ _ Hj) as [rest' ->].
    exists rest, rest'. now rewrite Hop.
  - intros s s' Hi Hj.
    destruct (hex_head _ _ Hi) as [rest ->], (hex_head _ _ Hj) as [rest' ->].
    exists rest, rest'. now rewrite Hop.
Qed.

Lemma primary_word_ignores_operands_witness :
  let i := Instr.__init__ 9 1 12 2 (Some 7) (Some 8) in
  let j := Instr.__init__ 9 1 12 2 (Some 100) (Some 200) in
  Encode i = Ok [Instr.op i; 7; 8] /\
  Encode j = Ok [Instr.op j; 100; 200] /\
  exists rest rest', [Instr.op i; 7; 8] = Instr.op i :: rest /\
                     [Instr.op j; 100; 200] = Instr.op i :: rest'.
Proof.
  intros i j.
  assert (Hi : Encode i = Ok [Instr.op i; 7; 8]) by reflexivity.
  assert (Hj : Encode j = Ok [Instr.op j; 100; 200]) by reflexivity.
  split; [exact Hi |]. split; [exact Hj |].
  exact (proj1 (proj2 (primary_word_ignores_operands 9 1 12 2
                         (Some 7) (Some 8) (Some 100) (Some 200))) _ _ Hi Hj).
Defined.

(** ** Disassembly *)

(** C6, as the code has it: the first example of the specification
    encodes to the single word [0x0003666b] (source unit 11 in bits 0-3,
    index [0x666] in bits 4-15, destination unit 3 in bits 16-19) and
    disassembles to ["R00 := #000666"]. *)
Theorem example_abs_immediate_to_register :
  let i := Instr.__init__ UNIT_ABS_IMMEDIATE 0x666 UNIT_REGISTER 0 None None in
  Encode i = Ok [0x0003666b] /\
  Instr.hex i = Ok "0003666b" /\
  Instr.asm i = Ok "R00 := #000666".
Proof. repeat split. Qed.

(** C6 fails as stated: the primary word is not [0x00006663]. *)
Lemma example_word_is_not_00006663 :
  Instr.hex (Instr.__init__ UNIT_ABS_IMMEDIATE 0x666 UNIT_REGISTER 0 None None)
    <> Ok "00006663" /\
  Instr.op (Instr.__init__ UNIT_ABS_IMMEDIATE 0x666 UNIT_REGISTER 0 None None)
    <> 0x00006663.
Proof. split; discriminate. Qed.

(** Case analysis on the tests of an [if] chain. *)
Ltac chain :=
  repeat match goal with
         | |- context [(?a =? ?b)%Z] => destruct (Z.eqb_spec a b)
         end.

(** The source text is produced whenever the needed operand is there. *)
Lemma asm_source_given i :
  operand_given (Instr.sunit i) (Instr.soperand i) ->
  exists src, Instr.asm_source i = Ok src /\ (unit_code (Instr.sunit i) -> src <> "").
Proof.
  unfold operand_given. rewrite carries_operand_spec. intros Hop.
  unfold Instr.asm_source. chain;
    try (destruct (Instr.soperand i) as [w|]; [| exfalso; apply Hop; now auto]);
    simpl; eexists; (split; [reflexivity |]); try discriminate.
  unfold unit_code, UNIT_NONE, UNIT_STACK_PUSH_POP, UNIT_STACK_INDEX, UNIT_REGISTER,
    UNIT_ALU_RIGHT, UNIT_ALU_LEFT, UNIT_ALU_OPERATOR, UNIT_ALU_RESULT,
    UNIT_MEMORY_IMMEDIATE, UNIT_MEMORY_OPERAND, UNIT_PC, UNIT_ABS_IMMEDIATE,
    UNIT_ABS_OPERAND in *.
  lia.
Qed.

(** C7, as the code has it: with the program counter as destination the
    text is ["JMP "] followed by the rendering of the source, which is
    not empty for any of the 13 unit codes. *)
Theorem asm_jmp_appends_source (i : Instr.t) :
  Instr.dunit i = UNIT_PC ->
  Instr.asm i = (src <- Instr.asm_source i ;; Ok ("JMP " ++ src)) /\
  (operand_given (Instr.sunit i) (Instr.soperand i) ->
   exists src, Instr.asm_source i = Ok src /\ Instr.asm i = Ok ("JMP " ++ src) /\
               (unit_code (Instr.sunit i) -> src <> "")).
Proof.
  intros Hd.
  assert (H : Instr.asm i = (src <- Instr.asm_source i ;; Ok ("JMP " ++ src))).
  { unfold Instr.asm, Instr.asm_dest. rewrite Hd. reflexivity. }
  split; [exact H |].
  intros Hop. destruct (asm_source_given i Hop) as [src [Hsrc Hne]].
  exists src. rewrite H, Hsrc. auto.
Qed.

Lemma asm_jmp_appends_source_witness :
  let i := Instr.__init__ UNIT_REGISTER 1 UNIT_PC 0 None None in
  Instr.dunit i = UNIT_PC /\
  Instr.asm i = (src <- Instr.asm_source i ;; Ok ("JMP " ++ src)) /\
  (operand_given (Instr.sunit i) (Instr.soperand i) ->
   exists src, Instr.asm_source i = Ok src /\ Instr.asm i = Ok ("JMP " ++ src) /\
               (unit_code (Instr.sunit i) -> src <> "")).
Proof.
  intros i. split; [reflexivity |].
  apply (asm_jmp_appends_source i). reflexivity.
Defined.

(** C7 fails as stated: a source clause follows ["JMP "]. *)
Lemma asm_jmp_has_source_clause :
  let i := Instr.__init__ UNIT_REGISTER 1 UNIT_PC 0 None None in
  Instr.dunit i = UNIT_PC /\
  Instr.asm_source i = Ok "R01" /\
  Instr.asm i = Ok "JMP R01".
Proof. repeat split. Qed.

(** *** Characters of the source text *)

Lemma format_x_no_equals_sign width n :
  all_chars not_equals_sign (format_x width n) = true.
Proof.
  apply (all_chars_weaken is_format_char); [| apply format_x_chars].
  intros c. destruct (Ascii.eqb_spec c "=") as [-> | Hc]; [discriminate |].
  unfold not_equals_sign. intros _.
  destruct (Ascii.eqb_spec c "="); [contradiction | reflexivity].
Qed.

(** The second chain never writes the character [=]. *)
Lemma asm_source_no_equals_sign i src :
  Instr.asm_source i = Ok src -> all_chars not_equals_sign src = true.
Proof.
  unfold Instr.asm_source.
  chain; try (destruct (Instr.soperand i) as [w|]; [| discriminate]);
    simpl; intros [= <-];
    repeat (rewrite all_chars_cons || rewrite all_chars_app
            || rewrite format_x_no_equals_sign);
    reflexivity.
Qed.

Lemma no_separator s :
  all_chars not_equals_sign s = true -> forall a b, s <> a ++ " := " ++ b.
Proof.
  intros Hs a b ->. rewrite all_chars_app in Hs.
  apply andb_true_iff in Hs as [_ Hs]. simpl in Hs. discriminate.
Qed.

(** No text of the first chain starts with the mnemonic of AluResult. *)
Lemma asm_dest_not_alu_result i dst :
  Instr.asm_dest i = Ok dst -> prefix "ALU:RESULT" dst = false.
Proof.
  unfold Instr.asm_dest.
  chain; try (destruct (Instr.doperand i) as [w|]; [| discriminate]);
    simpl; intros [= <-]; reflexivity.
Qed.

(** C8. With AluResult as destination the first chain leaves the text
    empty, so the disassembly is the rendering of the source alone, with
    no [" := "] in it; and for no instruction does the destination text
    begin with ["ALU:RESULT"], which only the source chain writes. *)
Theorem asm_alu_result_destination (i : Instr.t) :
  Instr.dunit i = UNIT_ALU_RESULT ->
  Instr.asm_dest i = Ok "" /\
  Instr.asm i = Instr.asm_source i /\
  (forall s, Instr.asm i = Ok s -> forall a b, s <> a ++ " := " ++ b) /\
  (forall j dst, Instr.asm_dest j = Ok dst -> prefix "ALU:RESULT" dst = false) /\
  (forall j, Instr.sunit j = UNIT_ALU_RESULT -> Instr.asm_source j = Ok "ALU:RESULT").
Proof.
  intros Hd.
  assert (H : Instr.asm i = Instr.asm_source i).
  { unfold Instr.asm, Instr.asm_dest. rewrite Hd. simpl.
    destruct (Instr.asm_source i); reflexivity. }
  split; [unfold Instr.asm_dest; rewrite Hd; reflexivity |].
  split; [exact H |].
  split; [| split].
  - intros s Hs. apply no_separator. apply (asm_source_no_equals_sign i). now rewrite <- H.
  - exact asm_dest_not_alu_result.
  - intros j Hj. unfold Instr.asm_source. rewrite Hj. reflexivity.
Qed.

Lemma asm_alu_result_destination_witness :
  let i := Instr.__init__ UNIT_REGISTER 1 UNIT_ALU_RESULT 0 None None in
  Instr.dunit i = UNIT_ALU_RESULT /\
  Instr.asm_dest i = Ok "" /\
  Instr.asm i = Instr.asm_source i /\
  (forall s, Instr.asm i = Ok s -> forall a b, s <> a ++ " := " ++ b) /\
  (forall j dst, Instr.asm_dest j = Ok dst -> prefix "ALU:RESULT" dst = false) /\
  (forall j, Instr.sunit j = UNIT_ALU_RESULT -> Instr.asm_source j = Ok "ALU:RESULT").
Proof.
  intros i. split; [reflexivity |].
  apply (asm_alu_result_destination i). reflexivity.
Defined.

Example asm_register_to_alu_result :
  Instr.asm (Instr.__init__ UNIT_REGISTER 1 UNIT_ALU_RESULT 0 None None) = Ok "R01".
Proof. reflexivity. Qed.

(** ** Unit codes outside 0..12 *)

Lemma carries_operand_unknown u : ~ unit_code u -> carries_operand u = false.
Proof.
  unfold unit_code, carries_operand, UNIT_MEMORY_OPERAND, UNIT_ABS_OPERAND. intros Hu.
  chain; try reflexivity; lia.
Qed.

Lemma asm_dest_unknown i : ~ unit_code (Instr.dunit i) -> Instr.asm_dest i = Ok "".
Proof.
  unfold unit_code, Instr.asm_dest, UNIT_STACK_PUSH_POP, UNIT_STACK_INDEX, UNIT_REGISTER,
    UNIT_ALU_RIGHT, UNIT_ALU_LEFT, UNIT_ALU_OPERATOR, UNIT_MEMORY_IMMEDIATE,
    UNIT_MEMORY_OPERAND, UNIT_PC.
  intros Hu. chain; try reflexivity; lia.
Qed.

Lemma asm_source_unknown i : ~ unit_code (Instr.sunit i) -> Instr.asm_source i = Ok "".
Proof.
  unfold unit_code, Instr.asm_source, UNIT_NONE, UNIT_STACK_PUSH_POP, UNIT_STACK_INDEX,
    UNIT_REGISTER, UNIT_ALU_RIGHT, UNIT_ALU_LEFT, UNIT_ALU_OPERATOR, UNIT_ALU_RESULT,
    UNIT_MEMORY_IMMEDIATE, UNIT_MEMORY_OPERAND, UNIT_PC, UNIT_ABS_IMMEDIATE,
    UNIT_ABS_OPERAND.
  intros Hu. chain; try reflexivity; lia.
Qed.

(** C9, as the code has it.  The constructor checks nothing: for any
    unit codes it returns an instruction that holds them unchanged, ORed
    into the primary word.  A unit code outside 0..12 has no rendering:
    as destination it leaves the destination text empty, as source it
    appends nothing, and it adds no extension word. *)
Theorem init_accepts_any_unit (sunit si dunit di : Z) (soperand doperand : option Z) :
  let i := Instr.__init__ sunit si dunit di soperand doperand in
  Instr.sunit i = sunit /\ Instr.dunit i = dunit /\
  Instr.op i = primary sunit si dunit di /\
  (~ unit_code dunit ->
     Instr.asm_dest i = Ok "" /\ Instr.asm i = Instr.asm_source i) /\
  (~ unit_code sunit -> Instr.asm_source i = Ok "") /\
  (~ unit_code sunit -> ~ unit_code dunit ->
     Encode i = Ok [Instr.op i] /\
     Instr.hex i = Ok (format_x 8 (Instr.op i)) /\
     Instr.asm i = Ok "").
Proof.
  intros i.
  assert (Hasm : ~ unit_code dunit -> Instr.asm i = Instr.asm_source i).
  { intros Hd. unfold Instr.asm. rewrite (asm_dest_unknown i Hd).
    replace (Instr.dunit i =? UNIT_NONE)%Z with false.
    - simpl. destruct (Instr.asm_source i); reflexivity.
    - symmetry. apply Z.eqb_neq. unfold unit_code, UNIT_NONE in *. simpl. lia. }
  split; [reflexivity |]. split; [reflexivity |]. split; [apply op_init |].
  split; [| split].
  - intros Hd. split; [now apply asm_dest_unknown | now apply Hasm].
  - intros Hs. now apply asm_source_unknown.
  - intros Hs Hd.
    assert (HE : Encode i = Ok [Instr.op i]).
    { unfold Encode, extension. simpl Instr.sunit. simpl Instr.dunit.
      now rewrite (carries_operand_unknown _ Hs), (carries_operand_unknown _ Hd). }
    split; [exact HE |]. split.
    + rewrite hex_Encode, HE. reflexivity.
    + rewrite (Hasm Hd). now apply asm_source_unknown.
Qed.

Lemma init_accepts_any_unit_witness :
  let i := Instr.__init__ 13 0 15 0 None None in
  ~ unit_code 13 /\ ~ unit_code 15 /\
  Encode i = Ok [Instr.op i] /\
  Instr.hex i = Ok (format_x 8 (Instr.op i)) /\
  Instr.asm i = Ok "".
Proof.
  assert (H13 : ~ unit_code 13) by (unfold unit_code; lia).
  assert (H15 : ~ unit_code 15) by (unfold unit_code; lia).
  split; [exact H13 |]. split; [exact H15 |].
  exact (proj2 (proj2 (proj2 (proj2 (proj2
           (init_accepts_any_unit 13 0 15 0 None None))))) H13 H15).
Defined.

(** C9 fails as stated: the unit code 13 is accepted, for the source and
    for the destination, and the instruction encodes and disassembles. *)
Lemma init_accepts_unit_13 :
  let i := Instr.__init__ 13 0 13 0 None None in
  ~ unit_code 13 /\
  Instr.sunit i = 13 /\ Instr.dunit i = 13 /\
  Instr.hex i = Ok "000d000d" /\
  Instr.asm i = Ok "".
Proof.
  split; [unfold unit_code; lia | repeat split].
Qed.

(** * More of [assembler.py] *)

(** ** [chunks] *)

Lemma range0_empty step : range0 0 step = []%list.
Proof.
  unfold range0. destruct step as [|s]; [reflexivity |].
  replace ((0 + S s - 1) / S s)%nat with 0%nat; [reflexivity |].
  symmetry. apply Nat.div_small. lia.
Qed.

(** The indices of a non-empty range: 0, then those of the range
    shortened by one step, each moved up by one step. *)
Lemma range0_step stop step :
  (0 < step)%nat -> (0 < stop)%nat ->
  range0 stop step = (0 :: map (fun i => step + i) (range0 (stop - step) step))%nat%list.
Proof.
  intros Hstep Hstop. unfold range0.
  assert (Hcount : ((stop + step - 1) / step = S ((stop - step + step - 1) / step))%nat).
  { destruct (Nat.le_gt_cases stop step) as [Hle | Hgt].
    - replace (stop - step)%nat with 0%nat by lia.
      replace ((0 + step - 1) / step)%nat with 0%nat
        by (symmetry; apply Nat.div_small; lia).
      replace (stop + step - 1)%nat with ((stop - 1) + 1 * step)%nat by lia.
      rewrite Nat.div_add by lia. rewrite Nat.div_small by lia. reflexivity.
    - replace (stop + step - 1)%nat with ((stop - step + step - 1) + 1 * step)%nat by lia.
      rewrite Nat.div_add by lia. lia. }
  rewrite Hcount. simpl seq. simpl map. f_equal.
  rewrite <- seq_shift, !map_map. apply map_ext. intros k. simpl. reflexivity.
Qed.

Section Chunks.

Context {A : Type}.
Variable n : nat.
Hypothesis Hn : (0 < n)%nat.

Lemma chunk_list_nil : chunk_list (@nil A) n = []%list.
Proof. unfold chunk_list. simpl List.length. now rewrite range0_empty. Qed.

Lemma chunk_list_cons (l : list A) :
  l <> []%list ->
  chunk_list l n = (firstn n l :: chunk_list (skipn n l) n)%list.
Proof.
  intros Hl. unfold chunk_list.
  assert (Hlen : (0 < List.length l)%nat) by (destruct l; [congruence | simpl; lia]).
  rewrite (range0_step _ _ Hn Hlen). simpl map. f_equal.
  - unfold slice. simpl skipn. f_equal. lia.
  - rewrite map_map, length_skipn. apply map_ext. intros i.
    unfold slice. rewrite skipn_skipn.
    f_equal; [lia | f_equal; lia].
Qed.

(** Induction along the chunks of a list. *)
Lemma chunk_list_ind (P : list A -> list (list A) -> Prop) :
  P []%list []%list ->
  (forall l, l <> []%list ->
     P (skipn n l) (chunk_list (skipn n l) n) ->
     P l (firstn n l :: chunk_list (skipn n l) n)%list) ->
  forall l, P l (chunk_list l n).
Proof.
  intros Hnil Hcons l.
  remember (List.length l) as len eqn:Hlen. revert l Hlen.
  induction len as [len IH] using lt_wf_ind. intros l Hlen.
  destruct l as [|a l].
  - rewrite chunk_list_nil. exact Hnil.
  - rewrite chunk_list_cons by discriminate.
    apply Hcons; [discriminate |].
    apply (IH (List.length (skipn n (a :: l)))); [| reflexivity].
    rewrite length_skipn, Hlen. cbn [List.length]. lia.
Qed.

Lemma chunk_list_concat (l : list A) : List.concat (chunk_list l n) = l.
Proof.
  apply (chunk_list_ind (fun l cs => List.concat cs = l)); [reflexivity |].
  intros l0 _ IH. simpl. rewrite IH. apply firstn_skipn.
Qed.

Lemma chunk_list_bounds (l : list A) :
  Forall (fun c => (1 <= List.length c <= n)%nat) (chunk_list l n).
Proof.
  apply (chunk_list_ind (fun _ cs => Forall (fun c => (1 <= List.length c <= n)%nat) cs));
    [constructor |].
  intros l0 Hl0 IH. constructor; [| exact IH].
  rewrite length_firstn. destruct l0; [congruence | simpl; lia].
Qed.

Lemma chunk_list_full (l : list A) front c :
  chunk_list l n = (front ++ [c])%list ->
  Forall (fun x => List.length x = n) front.
Proof.
  revert front c.
  apply (chunk_list_ind (fun _ cs => forall front c, cs = (front ++ [c])%list ->
                                    Forall (fun x => List.length x = n) front)).
  - intros front c H. destruct front; discriminate.
  - intros l0 Hl0 IH front c H.
    destruct front as [|x front]; [constructor |].
    simpl in H. injection H as <- Hrest.
    constructor; [| now apply (IH front c)].
    rewrite length_firstn.
    destruct (skipn n l0) as [|b r] eqn:Hskip.
    + rewrite chunk_list_nil in Hrest. destruct front; discriminate.
    + assert (Hlen : List.length (skipn n l0) = S (List.length r)) by now rewrite Hskip.
      rewrite length_skipn in Hlen. lia.
Qed.

End Chunks.

Lemma chunks_positive {A : Type} (lst : list A) (n : Z) :
  0 < n -> chunks lst n = Some (chunk_list lst (Z.to_nat n)).
Proof.
  intros Hn. unfold chunks.
  destruct (Z.eqb_spec n 0); [lia |]. destruct (Z.ltb_spec n 0); [lia | reflexivity].
Qed.

(** X1. For a positive [n], [chunks] loses and reorders nothing: the
    chunks it yields, put end to end, are the list. *)
Theorem chunks_concat {A : Type} (lst : list A) (n : Z) :
  0 < n ->
  exists cs, chunks lst n = Some cs /\ List.concat cs = lst.
Proof.
  intros Hn. exists (chunk_list lst (Z.to_nat n)).
  split; [now apply chunks_positive | apply chunk_list_concat; lia].
Qed.

Lemma chunks_concat_witness :
  0 < 4 /\
  exists cs, chunks [1; 2; 3; 4; 5; 6; 7]%list 4 = Some cs /\
             List.concat cs = [1; 2; 3; 4; 5; 6; 7]%list.
Proof.
  assert (H4 : 0 < 4) by lia.
  split; [exact H4 | exact (chunks_concat [1; 2; 3; 4; 5; 6; 7]%list 4 H4)].
Defined.

(** X2. For a positive [n] no chunk is empty and none has more than [n]
    elements; every chunk but the last has exactly [n]. *)
Theorem chunks_sizes {A : Type} (lst : list A) (n : Z) (cs : list (list A)) :
  0 < n -> chunks lst n = Some cs ->
  Forall (fun c => 1 <= Z.of_nat (List.length c) <= n) cs /\
  (forall front c, cs = (front ++ [c])%list ->
     Forall (fun x => Z.of_nat (List.length x) = n) front).
Proof.
  intros Hn H. rewrite chunks_positive in H by assumption. injection H as <-.
  assert (Hpos : (0 < Z.to_nat n)%nat) by lia.
  split.
  - eapply Forall_impl; [| apply (chunk_list_bounds _ Hpos)].
    simpl. intros c Hc. lia.
  - intros front c Hcs.
    eapply Forall_impl; [| apply (chunk_list_full _ Hpos lst front c Hcs)].
    simpl. intros x Hx. lia.
Qed.

Lemma chunks_sizes_witness :
  0 < 4 /\
  chunks [1; 2; 3; 4; 5; 6; 7]%list 4 = Some [[1; 2; 3; 4]; [5; 6; 7]]%list /\
  Forall (fun c => 1 <= Z.of_nat (List.length c) <= 4) [[1; 2; 3; 4]; [5; 6; 7]]%list /\
  (forall front c, [[1; 2; 3; 4]; [5; 6; 7]]%list = (front ++ [c])%list ->
     Forall (fun x => Z.of_nat (List.length x) = 4) front).
Proof.
  assert (H4 : 0 < 4) by lia.
  assert (Hc : chunks [1; 2; 3; 4; 5; 6; 7]%list 4 = Some [[1; 2; 3; 4]; [5; 6; 7]]%list)
    by reflexivity.
  split; [exact H4 |]. split; [exact Hc |].
  exact (chunks_sizes _ 4 _ H4 Hc).
Defined.

(** X3. For a positive [n] and a non-empty list, the first chunk is the
    first [n] elements and the chunks after it are the chunks of the
    rest of the list; the empty list has no chunk. *)
Theorem chunks_unfold {A : Type} (lst : list A) (n : Z) :
  0 < n ->
  chunks (@nil A) n = Some []%list /\
  (lst <> []%list ->
   chunks lst n =
     option_map (cons (firstn (Z.to_nat n) lst)) (chunks (skipn (Z.to_nat n) lst) n)).
Proof.
  intros Hn. rewrite !chunks_positive by assumption.
  assert (Hpos : (0 < Z.to_nat n)%nat) by lia.
  split.
  - now rewrite chunk_list_nil.
  - intros Hl. simpl. f_equal. now apply chunk_list_cons.
Qed.

Lemma chunks_unfold_witness :
  0 < 2 /\
  chunks (@nil Z) 2 = Some []%list /\
  ([1; 2; 3]%list <> []%list ->
   chunks [1; 2; 3]%list 2 =
     option_map (cons (firstn (Z.to_nat 2) [1; 2; 3]%list))
       (chunks (skipn (Z.to_nat 2) [1; 2; 3]%list) 2)).
Proof.
  assert (H2 : 0 < 2) by lia.
  split; [exact H2 | exact (chunks_unfold [1; 2; 3]%list 2 H2)].
Defined.

(** A step of 0 raises, a negative step yields nothing. *)
Example chunks_zero_step : chunks [1; 2; 3]%list 0 = None.
Proof. reflexivity. Qed.

Example chunks_negative_step : chunks [1; 2; 3]%list (-2) = Some []%list.
Proof. reflexivity. Qed.

(** Mapping over the elements commutes with chunking. *)
Lemma chunk_list_map {A B : Type} (f : A -> B) (l : list A) (n : nat) :
  chunk_list (map f l) n = map (map f) (chunk_list l n).
Proof.
  unfold chunk_list. rewrite length_map, map_map. apply map_ext. intros i.
  unfold slice. now rewrite skipn_map, firstn_map.
Qed.

(** ** When [Instr.hex] and [Instr.asm] raise *)

Ltac unit_values :=
  unfold UNIT_NONE, UNIT_STACK_PUSH_POP, UNIT_STACK_INDEX, UNIT_REGISTER,
    UNIT_ALU_RIGHT, UNIT_ALU_LEFT, UNIT_ALU_OPERATOR, UNIT_ALU_RESULT,
    UNIT_MEMORY_IMMEDIATE, UNIT_MEMORY_OPERAND, UNIT_PC, UNIT_ABS_IMMEDIATE,
    UNIT_ABS_OPERAND in *.

Lemma extension_raises unit operand :
  (exists e, extension unit operand = Raise e) <->
  carries_operand unit = true /\ operand = None.
Proof.
  unfold extension. destruct (carries_operand unit), operand as [w|]; split;
    try (intros [e He]; discriminate);
    try (intros [H1 H2]; discriminate).
  - intros _. now split.
  - intros _. now exists FormatError.
Qed.

(** X4. [Instr.hex] raises exactly when a unit that carries an operand
    (MemoryOperand or AbsoluteOperand, on either side) has its operand
    left at [None]; otherwise it returns a text. *)
Theorem hex_raises_iff (i : Instr.t) :
  ((exists e, Instr.hex i = Raise e) <->
   (carries_operand (Instr.sunit i) = true /\ Instr.soperand i = None) \/
   (carries_operand (Instr.dunit i) = true /\ Instr.doperand i = None)) /\
  ((exists s, Instr.hex i = Ok s) <->
   operand_given (Instr.sunit i) (Instr.soperand i) /\
   operand_given (Instr.dunit i) (Instr.doperand i)).
Proof.
  rewrite hex_Encode. unfold Encode, operand_given.
  rewrite <- !extension_raises. unfold extension.
  destruct (carries_operand (Instr.sunit i)), (Instr.soperand i) as [a|];
    destruct (carries_operand (Instr.dunit i)), (Instr.doperand i) as [b|];
    simpl; (split; split);
    try (intros [x Hx]; discriminate);
    try (intros _; eexists; reflexivity);
    try (intros _; split; intros; congruence);
    try (intros [[x Hx] | [x Hx]]; discriminate);
    try (intros _; left; eexists; reflexivity);
    try (intros _; right; eexists; reflexivity);
    try (intros [H1 H2]; exfalso; first [now apply H1 | now apply H2]).
Qed.

Lemma asm_dest_raises i :
  (exists e, Instr.asm_dest i = Raise e) <->
  Instr.dunit i = UNIT_MEMORY_OPERAND /\ Instr.doperand i = None.
Proof.
  unfold Instr.asm_dest.
  chain; try (destruct (Instr.doperand i) as [w|]); simpl; split;
    try (intros [x Hx]; discriminate);
    try (intros [H1 H2]; first [discriminate | exfalso; unit_values; lia]).
  - intros _. now split.
  - intros _. now exists FormatError.
Qed.

Lemma asm_source_raises i :
  (exists e, Instr.asm_source i = Raise e) <->
  carries_operand (Instr.sunit i) = true /\ Instr.soperand i = None.
Proof.
  rewrite carries_operand_spec. unfold Instr.asm_source.
  chain; try (destruct (Instr.soperand i) as [w|]); simpl; split;
    try (intros [x Hx]; discriminate);
    try (intros [H1 H2]; first [discriminate | exfalso; unit_values; lia]);
    try (intros _; split; [auto | reflexivity]);
    try (intros _; now exists FormatError).
Qed.

(** X5. [Instr.asm] raises exactly when the destination is not None and
    either the destination is MemoryOperand with [doperand] left at
    [None], or the source is MemoryOperand or AbsoluteOperand with
    [soperand] left at [None].  So a NOP never raises, and a destination
    AbsoluteOperand without operand raises in [Instr.hex] only. *)
Theorem asm_raises_iff (i : Instr.t) :
  (exists e, Instr.asm i = Raise e) <->
  Instr.dunit i <> UNIT_NONE /\
  ((Instr.dunit i = UNIT_MEMORY_OPERAND /\ Instr.doperand i = None) \/
   (carries_operand (Instr.sunit i) = true /\ Instr.soperand i = None)).
Proof.
  rewrite <- asm_dest_raises, <- asm_source_raises. unfold Instr.asm.
  destruct (Z.eqb_spec (Instr.dunit i) UNIT_NONE) as [Hd | Hd].
  - split; [intros [e He]; discriminate | intros [H _]; contradiction].
  - destruct (Instr.asm_dest i) as [d|e1], (Instr.asm_source i) as [s|e2]; simpl; split;
      try (intros [x Hx]; discriminate);
      try (intros [_ [[x Hx] | [x Hx]]]; discriminate);
      try (intros _; eexists; reflexivity);
      try (intros _; split; [assumption |]; first [left; eexists; reflexivity
                                                   | right; eexists; reflexivity]).
Qed.

Example asm_abs_operand_destination :
  let i := Instr.__init__ UNIT_REGISTER 1 UNIT_ABS_OPERAND 0 None None in
  Instr.asm i = Ok "R01" /\ Instr.hex i = Raise FormatError.
Proof. split; reflexivity. Qed.

(** X6. The disassembly is ["NOP"] exactly when the destination unit is
    None: no other instruction is rendered as ["NOP"]. *)
Theorem asm_nop_iff (i : Instr.t) :
  Instr.asm i = Ok "NOP" <-> Instr.dunit i = UNIT_NONE.
Proof.
  split.
  - unfold Instr.asm.
    destruct (Z.eqb_spec (Instr.dunit i) UNIT_NONE) as [Hd | Hd]; [trivial |].
    intros H. exfalso. revert H.
    unfold Instr.asm_dest, Instr.asm_source.
    chain; try (destruct (Instr.doperand i) as [w|]);
      try (destruct (Instr.soperand i) as [v|]); simpl; discriminate.
  - intros Hd. unfold Instr.asm. now rewrite Hd.
Qed.

(** ** The width of a formatted word *)

Lemma length_append (a b : string) :
  String.length (a ++ b) = (String.length a + String.length b)%nat.
Proof. induction a as [|x a IH]; simpl; [reflexivity | now rewrite IH]. Qed.

Lemma length_zeros k : String.length (zeros k) = k.
Proof. induction k; simpl; auto. Qed.

Lemma length_string_of_uint d :
  String.length (NilEmpty.string_of_uint d) = nb_digits d.
Proof. induction d; simpl; auto. Qed.

(** The digits read after an accumulator [acc] only add to
    [acc * 16 ^ (number of digits)]. *)
Lemma of_hex_uint_acc_lower l :
  forall acc,
    Z.pos acc * 16 ^ Z.of_nat (nb_digits l) <= Z.pos (Pos.of_hex_uint_acc l acc).
Proof.
  induction l; intros acc; cbn [nb_digits Pos.of_hex_uint_acc];
    [ rewrite Z.pow_0_r; lia | .. ];
    rewrite Nat2Z.inj_succ, Z.pow_succ_r by lia;
    (eapply Z.le_trans; [| apply IHl]);
    assert (0 < 16 ^ Z.of_nat (nb_digits l)) by (apply Z.pow_pos_nonneg; lia);
    nia.
Qed.

(** A number written without leading zero is at least
    [16 ^ (number of digits - 1)]. *)
Lemma of_hex_uint_lower d :
  d <> Nil -> nzhead d = d ->
  16 ^ (Z.of_nat (nb_digits d) - 1) <= Z.of_N (N.of_hex_uint d).
Proof.
  intros Hnil Hhead.
  destruct d; try congruence;
    try (cbn [nb_digits N.of_hex_uint Pos.of_hex_uint];
         replace (Z.of_nat (S (nb_digits d)) - 1) with (Z.of_nat (nb_digits d)) by lia;
         rewrite N2Z.inj_pos;
         (eapply Z.le_trans; [| apply of_hex_uint_acc_lower]);
         assert (0 < 16 ^ Z.of_nat (nb_digits d)) by (apply Z.pow_pos_nonneg; lia);
         nia).
  exfalso. simpl in Hhead.
  pose proof (HexadecimalFacts.nb_digits_nzhead d) as Hle.
  rewrite Hhead in Hle. simpl in Hle. lia.
Qed.

Lemma length_hex_digits (n : N) (width : nat) :
  (0 < width)%nat -> Z.of_N n < 16 ^ Z.of_nat width ->
  (String.length (hex_digits n) <= width)%nat.
Proof.
  intros Hw Hn. unfold hex_digits. rewrite length_string_of_uint.
  destruct n as [|p]; [simpl; lia |].
  set (d := N.to_hex_uint (N.pos p)).
  assert (Hval : N.of_hex_uint d = N.pos p) by apply HexadecimalN.Unsigned.of_to.
  assert (Hnorm : unorm d = d).
  { rewrite <- (HexadecimalN.Unsigned.to_of d), Hval. reflexivity. }
  assert (Hnz : d <> zero) by apply HexadecimalPos.Unsigned.to_uint_nonzero.
  assert (Hnil : d <> Nil) by apply HexadecimalPos.Unsigned.to_uint_nonnil.
  assert (Hhead : nzhead d = d).
  { unfold unorm in Hnorm. destruct (nzhead d); congruence. }
  pose proof (of_hex_uint_lower d Hnil Hhead) as Hlow. rewrite Hval in Hlow.
  destruct (Nat.le_gt_cases (nb_digits d) width) as [Hle | Hgt]; [exact Hle |].
  exfalso.
  assert (16 ^ Z.of_nat width <= 16 ^ (Z.of_nat (nb_digits d) - 1))
    by (apply Z.pow_le_mono_r; lia).
  lia.
Qed.

(** Never fewer than [width] characters. *)
Lemma length_format_x_min width n : (width <= String.length (format_x width n))%nat.
Proof.
  unfold format_x. rewrite !length_append, length_zeros.
  destruct (n <? 0)%Z; simpl; lia.
Qed.

(** Exactly [width] characters for a number of [width] digits. *)
Lemma length_format_x width n :
  (0 < width)%nat -> 0 <= n < 16 ^ Z.of_nat width ->
  String.length (format_x width n) = width.
Proof.
  intros Hw Hn. unfold format_x.
  destruct (Z.ltb_spec n 0) as [Hneg | _]; [lia |].
  rewrite !length_append, length_zeros. simpl String.length.
  assert (String.length (hex_digits (Z.abs_N n)) <= width)%nat.
  { apply length_hex_digits; [assumption |]. rewrite N2Z.inj_abs_N. lia. }
  lia.
Qed.

Lemma format_x_digits width n :
  0 <= n -> all_chars is_hex_digit (format_x width n) = true.
Proof.
  intros Hn. unfold format_x.
  destruct (Z.ltb_spec n 0); [lia |].
  now rewrite !all_chars_app, zeros_chars, hex_digits_chars.
Qed.

Lemma format_x_word_chars width n :
  0 <= n -> all_chars is_word_char (format_x width n) = true.
Proof.
  intros Hn. apply (all_chars_weaken is_hex_digit); [| now apply format_x_digits].
  intros c Hc. unfold is_word_char. now rewrite Hc.
Qed.

Lemma length_format_word w : 0 <= w < 2 ^ 32 -> String.length (format_x 8 w) = 8%nat.
Proof. intros Hw. apply length_format_x; [lia | exact Hw]. Qed.

Lemma well_formed_op_range i : well_formed i -> 0 <= Instr.op i < 2 ^ 32.
Proof.
  intros [Hc Hsu Hsi Hdu Hdi _ _]. unfold constructed in Hc.
  pose proof (f_equal Instr.op Hc) as Hop. rewrite op_init in Hop. rewrite Hop.
  apply primary_range; auto using unit_code_lt16.
Qed.

(** X7. The text of a well-formed instruction whose operands are 32-bit
    values has a fixed width: 8 hexadecimal digits for the primary word
    and 9 more characters (a space and 8 digits) for each operand, so 8,
    17 or 26 characters, all of them hexadecimal digits or spaces. *)
Theorem hex_fixed_width (i : Instr.t) :
  well_formed i -> operand32 (Instr.soperand i) -> operand32 (Instr.doperand i) ->
  exists s,
    Instr.hex i = Ok s /\
    String.length s =
      (8 + (if carries_operand (Instr.sunit i) then 9 else 0)
         + (if carries_operand (Instr.dunit i) then 9 else 0))%nat /\
    all_chars is_word_char s = true.
Proof.
  intros Hwf Hso Hdo.
  pose proof (well_formed_op_range i Hwf) as Hop.
  pose proof (wf_soperand i Hwf) as [Hs1 Hs2].
  pose proof (wf_doperand i Hwf) as [Hd1 Hd2].
  unfold Instr.hex. fold (carries_operand (Instr.sunit i)) (carries_operand (Instr.dunit i)).
  unfold operand32 in *.
  destruct (carries_operand (Instr.sunit i));
    [destruct (Instr.soperand i) as [a|]; [| exfalso; now apply Hs1] |];
    (destruct (carries_operand (Instr.dunit i));
      [destruct (Instr.doperand i) as [b|]; [| exfalso; now apply Hd1] |]);
    simpl; eexists; (split; [reflexivity |]);
    try (assert (Ha : 0 <= a < 2 ^ 32) by now apply Hso);
    try (assert (Hb : 0 <= b < 2 ^ 32) by now apply Hdo);
    (split;
     [ repeat (rewrite length_append || (rewrite length_format_word by assumption)
               || (progress cbn [String.length]));
       lia
     | repeat (rewrite all_chars_app || rewrite all_chars_cons
               || (rewrite format_x_word_chars by lia));
       reflexivity ]).
Qed.

Lemma hex_fixed_width_witness :
  let i := Instr.__init__ UNIT_REGISTER 1 UNIT_MEMORY_OPERAND 0 None (Some 0x543) in
  well_formed i /\
  exists s,
    Instr.hex i = Ok s /\
    String.length s =
      (8 + (if carries_operand (Instr.sunit i) then 9 else 0)
         + (if carries_operand (Instr.dunit i) then 9 else 0))%nat /\
    all_chars is_word_char s = true.
Proof.
  intros i.
  assert (Hi : well_formed i).
  { constructor.
    - reflexivity.
    - unfold unit_code, i, UNIT_REGISTER; simpl; lia.
    - unfold index12, i; simpl; lia.
    - unfold unit_code, i, UNIT_MEMORY_OPERAND; simpl; lia.
    - unfold index12, i; simpl; lia.
    - split; [discriminate | intros H; now elim H].
    - split; [discriminate | reflexivity]. }
  split; [exact Hi |].
  apply (hex_fixed_width i Hi).
  - intros w H. discriminate.
  - intros w H. injection H as <-. lia.
Defined.

(** ** The source text tells the source apart *)

Lemma format_x_inj_widths w1 w2 n m : format_x w1 n = format_x w2 m -> n = m.
Proof.
  intros H. apply (f_equal parse_x) in H.
  rewrite !parse_x_format_x in H. congruence.
Qed.

Lemma append_cancel_r (a b c : string) : a ++ c = b ++ c -> a = b.
Proof.
  revert b. induction a as [|x a IH]; intros [|y b] H; simpl in H.
  - reflexivity.
  - apply (f_equal String.length) in H. simpl in H. rewrite length_append in H. lia.
  - apply (f_equal String.length) in H. simpl in H. rewrite length_append in H. lia.
  - injection H as -> H. f_equal. now apply IH.
Qed.

Lemma length_format_index w x :
  (3 <= w)%nat -> index12 x -> String.length (format_x w x) = w.
Proof.
  intros Hw Hx. apply length_format_x; [lia |]. unfold index12 in Hx.
  assert (16 ^ 3 <= 16 ^ Z.of_nat w) by (apply Z.pow_le_mono_r; lia).
  lia.
Qed.

(** Two formatted numbers of different widths differ when the narrow
    one fits its width. *)
Lemma format_6_8_differ x y tail : index12 x -> format_x 6 x ++ tail <> format_x 8 y ++ tail.
Proof.
  intros Hx H. apply append_cancel_r in H.
  pose proof (length_format_index 6 x ltac:(lia) Hx) as H6.
  pose proof (length_format_x_min 8 y) as H8.
  rewrite H in H6. lia.
Qed.

Lemma format_not_short w x s :
  (String.length s < w)%nat -> format_x w x <> s.
Proof.
  intros Hs H. pose proof (length_format_x_min w x) as Hmin. rewrite H in Hmin. lia.
Qed.

Lemma format_6_8_differ_nil x y : index12 x -> format_x 6 x <> format_x 8 y.
Proof.
  intros Hx H. apply (format_6_8_differ x y "" Hx). now rewrite !append_nil_r.
Qed.

(** Strip the equal leading characters of the two sides of an equation
    between texts. *)
Ltac peel H := try discriminate H; try (injection H as H); try discriminate H.

(** X8. The source text of [Instr.asm] tells the source apart: two
    instructions with defined source units and 12-bit source indices
    that get the same source text have the same source unit, the same
    index when the unit prints it, and the same operand when the unit
    carries one. *)
Theorem asm_source_inj (i j : Instr.t) (s : string) :
  unit_code (Instr.sunit i) -> unit_code (Instr.sunit j) ->
  index12 (Instr.si i) -> index12 (Instr.si j) ->
  Instr.asm_source i = Ok s -> Instr.asm_source j = Ok s ->
  Instr.sunit i = Instr.sunit j /\
  (prints_index (Instr.sunit i) = true -> Instr.si i = Instr.si j) /\
  (carries_operand (Instr.sunit i) = true -> Instr.soperand i = Instr.soperand j).
Proof.
  intros Hui Huj Hxi Hxj.
  unfold Instr.asm_source.
  chain; try (exfalso; unfold unit_code in *; unit_values; lia);
    try (destruct (Instr.soperand i) as [a|]; [| discriminate]);
    try (destruct (Instr.soperand j) as [b|]; [| discriminate]);
    cbn [bind append]; intros [= <-] H; peel H;
    try lazymatch type of H with
        | format_x 6 _ = format_x 8 _ =>
            exfalso; revert H; apply format_6_8_differ_nil; assumption
        | format_x 8 _ = format_x 6 _ =>
            exfalso; revert H; apply not_eq_sym, format_6_8_differ_nil; assumption
        | format_x 6 _ ++ ")" = format_x 8 _ ++ ")" =>
            exfalso; revert H; apply format_6_8_differ; assumption
        | format_x 8 _ ++ ")" = format_x 6 _ ++ ")" =>
            exfalso; revert H; apply not_eq_sym, format_6_8_differ; assumption
        | format_x _ _ = "0" =>
            exfalso; revert H; apply format_not_short; cbn [String.length]; lia
        | "0" = format_x _ _ =>
            exfalso; revert H; apply not_eq_sym, format_not_short;
            cbn [String.length]; lia
        | format_x ?w _ ++ ")" = format_x ?w _ ++ ")" =>
            apply append_cancel_r, format_x_inj_widths in H
        | format_x ?w _ = format_x ?w _ => apply format_x_inj_widths in H
        end;
    (split; [congruence |]);
    match goal with
    | e : Instr.sunit i = _ |- _ => rewrite e
    end;
    (split; intros Hp; first [discriminate Hp | congruence]).
Qed.

Lemma asm_source_inj_witness :
  let i := Instr.__init__ UNIT_ABS_IMMEDIATE 0x666 UNIT_REGISTER 0 None None in
  let j := Instr.__init__ UNIT_ABS_IMMEDIATE 0x666 UNIT_MEMORY_OPERAND 5 None (Some 1) in
  Instr.asm_source i = Ok "#000666" /\ Instr.asm_source j = Ok "#000666" /\
  Instr.sunit i = Instr.sunit j /\
  (prints_index (Instr.sunit i) = true -> Instr.si i = Instr.si j) /\
  (carries_operand (Instr.sunit i) = true -> Instr.soperand i = Instr.soperand j).
Proof.
  intros i j.
  assert (Hi : Instr.asm_source i = Ok "#000666") by reflexivity.
  assert (Hj : Instr.asm_source j = Ok "#000666") by reflexivity.
  split; [exact Hi |]. split; [exact Hj |].
  apply (asm_source_inj i j "#000666"); try assumption.
  - unfold unit_code, i; unit_values; simpl; lia.
  - unfold unit_code, j; unit_values; simpl; lia.
  - unfold index12, i; simpl; lia.
  - unfold index12, j; simpl; lia.
Defined.

(** ** [main] *)

(** What [main] writes and prints. *)
Example main_outputs :
  main =
    ("0003666b 00040003 0005123b 0006001b" ++ newline ++
     "00130007 00090013 00000543 66685438" ++ newline,
     Ok ("R00 := #000666" ++ newline ++
         "ALU:LEFT := R00" ++ newline ++
         "ALU:RIGHT := #000123" ++ newline ++
         "ALU:OPERATOR := #000001" ++ newline ++
         "R01 := ALU:RESULT" ++ newline ++
         "*(00000543) := R01" ++ newline ++
         "*(000666) := *(000543)" ++ newline)).
Proof. vm_compute. reflexivity. Qed.

Lemma write_chunks_acc chks :
  forall mem,
    write_chunks chks mem =
      (mem ++ fst (write_chunks chks ""), snd (write_chunks chks "")).
Proof.
  induction chks as [|x chks IH]; intros mem; cbn [write_chunks].
  - cbn [fst snd]. now rewrite append_nil_r.
  - destruct (comprehension Instr.hex x) as [words|e]; cbn [fst snd].
    + set (line := string_join words " " ++ newline).
      rewrite (IH (mem ++ line)), (IH ("" ++ line)). cbn [fst snd append].
      now rewrite !append_assoc.
    + now rewrite append_nil_r.
Qed.

Lemma comprehension_map {A B : Type} (f : A -> result B) (g : A -> B) (l : list A) :
  Forall (fun a => f a = Ok (g a)) l -> comprehension f l = Ok (map g l).
Proof.
  induction 1 as [|a l Ha _ IH]; simpl; [reflexivity |].
  now rewrite Ha, IH.
Qed.

Lemma comprehension_raise {A B : Type} (f : A -> result B) (g : A -> B)
    (good : list A) (bad : A) (rest : list A) (e : exn) :
  Forall (fun a => f a = Ok (g a)) good -> f bad = Raise e ->
  comprehension f (good ++ bad :: rest) = Raise e.
Proof.
  intros Hgood Hbad. induction Hgood as [|a l Ha _ IH]; simpl.
  - now rewrite Hbad.
  - now rewrite Ha, IH.
Qed.

Lemma Encode_extension_words_aux i :
  operand_given (Instr.sunit i) (Instr.soperand i) ->
  operand_given (Instr.dunit i) (Instr.doperand i) ->
  exists src dst, Encode i = Ok (Instr.op i :: src ++ dst)%list.
Proof.
  intros Hs Hd.
  destruct (extension_given _ _ Hs) as [src [Esrc _]].
  destruct (extension_given _ _ Hd) as [dst [Edst _]].
  exists src, dst. unfold Encode. now rewrite Esrc, Edst.
Qed.

Lemma encoded_given i :
  operands_given i ->
  Encode i = Ok (encoded i) /\ Instr.hex i = Ok (render_words (encoded i)) /\
  encoded i <> []%list.
Proof.
  intros [Hs Hd].
  destruct (Encode_extension_words_aux i Hs Hd) as [src [dst HE]].
  unfold encoded. rewrite hex_Encode, HE. simpl. repeat split. discriminate.
Qed.

Lemma concat_app_sep sep (l1 l2 : list string) :
  l1 <> []%list -> l2 <> []%list ->
  String.concat sep (l1 ++ l2) = String.concat sep l1 ++ sep ++ String.concat sep l2.
Proof.
  intros H1 H2. induction l1 as [|a l1 IH]; [congruence |].
  destruct l1 as [|b l1].
  - destruct l2; [congruence | reflexivity].
  - change (String.concat sep ((a :: b :: l1) ++ l2))
      with (a ++ sep ++ String.concat sep ((b :: l1) ++ l2)).
    rewrite IH by discriminate.
    change (String.concat sep (a :: b :: l1)) with (a ++ sep ++ String.concat sep (b :: l1)).
    now rewrite !append_assoc.
Qed.

Lemma concat_empty_cons (x : string) (l : list string) :
  String.concat "" (x :: l) = x ++ String.concat "" l.
Proof. destruct l; simpl; [now rewrite append_nil_r | reflexivity]. Qed.

Lemma render_words_app (a b : list Z) :
  a <> []%list -> b <> []%list ->
  render_words (a ++ b) = render_words a ++ " " ++ render_words b.
Proof.
  intros Ha Hb. unfold render_words. rewrite map_app.
  apply concat_app_sep; [destruct a | destruct b]; simpl; congruence.
Qed.

(** Joining the texts of several word sequences with spaces prints the
    sequences put end to end. *)
Lemma join_render_words (wss : list (list Z)) :
  Forall (fun ws => ws <> []%list) wss ->
  string_join (map render_words wss) " " = render_words (List.concat wss).
Proof.
  unfold string_join. induction 1 as [|ws wss Hws Hwss IH]; [reflexivity |].
  destruct wss as [|ws' wss].
  - simpl. now rewrite app_nil_r.
  - change (String.concat " " (map render_words (ws :: ws' :: wss)))
      with (render_words ws ++ " " ++ String.concat " " (map render_words (ws' :: wss))).
    rewrite IH. change (List.concat (ws :: ws' :: wss)) with (ws ++ List.concat (ws' :: wss))%list.
    rewrite render_words_app; [reflexivity | assumption |].
    inversion Hwss; subst. simpl. destruct ws'; [congruence | discriminate].
Qed.

Lemma hex_chunk (x : list Instr.t) :
  Forall operands_given x ->
  comprehension Instr.hex x = Ok (map (fun i => render_words (encoded i)) x) /\
  string_join (map (fun i => render_words (encoded i)) x) " "
    = render_words (flat_map encoded x).
Proof.
  intros Hx. split.
  - apply comprehension_map. eapply Forall_impl; [| exact Hx].
    intros i Hi. apply (encoded_given i Hi).
  - rewrite <- (map_map encoded render_words), join_render_words.
    + now rewrite flat_map_concat_map.
    + apply Forall_map. eapply Forall_impl; [| exact Hx].
      intros i Hi. apply (encoded_given i Hi).
Qed.

Lemma write_chunks_given (chks : list (list Instr.t)) :
  Forall (Forall operands_given) chks ->
  write_chunks chks "" =
    (String.concat "" (map (fun x => render_words (flat_map encoded x) ++ newline) chks),
     Ok tt).
Proof.
  induction 1 as [|x chks Hx _ IH]; [reflexivity |].
  cbn [write_chunks]. destruct (hex_chunk x Hx) as [-> ->].
  rewrite write_chunks_acc, IH. cbn [fst snd append map].
  now rewrite concat_empty_cons.
Qed.


Lemma Forall_firstn_skipn {A : Type} (P : A -> Prop) (n : nat) (l : list A) :
  Forall P l -> Forall P (firstn n l) /\ Forall P (skipn n l).
Proof.
  intros H. rewrite <- (firstn_skipn n l) in H. now apply Forall_app in H.
Qed.

Lemma write_mem_cons (program : list Instr.t) :
  program <> []%list ->
  write_mem program = write_chunks (firstn 4 program :: chunk_list (skipn 4 program) 4) "".
Proof.
  intros Hp. unfold write_mem. now rewrite (chunk_list_cons 4 ltac:(lia) program Hp).
Qed.

Lemma write_chunks_line (x : list Instr.t) (chks : list (list Instr.t)) :
  Forall operands_given x ->
  write_chunks (x :: chks) "" =
    ((render_words (flat_map encoded x) ++ newline) ++ fst (write_chunks chks ""),
     snd (write_chunks chks "")).
Proof.
  intros Hx. cbn [write_chunks]. destruct (hex_chunk x Hx) as [-> ->].
  now rewrite write_chunks_acc.
Qed.

(** X10. When an instruction of the program lacks an operand it needs
    and all those before it have theirs, the exception leaves the
    memory file with the complete lines before the line of that
    instruction, and nothing of that line or of what follows. *)
Theorem write_mem_partial (good : list Instr.t) (bad : Instr.t) (rest : list Instr.t)
    (e : exn) :
  Forall operands_given good -> Instr.hex bad = Raise e ->
  write_mem (good ++ bad :: rest) =
    (fst (write_mem (firstn (4 * (List.length good / 4)) good)), Raise e).
Proof.
  intros Hgood Hbad.
  remember (List.length good) as len eqn:Hlen. revert good Hgood Hlen.
  induction len as [len IH] using lt_wf_ind. intros good Hgood Hlen.
  rewrite write_mem_cons by (destruct good; discriminate).
  destruct (Nat.lt_ge_cases len 4) as [Hshort | Hlong].
  - (* the failing instruction is on the first line *)
    rewrite Nat.div_small by assumption.
    rewrite firstn_app, firstn_all2 by lia.
    replace (4 - List.length good)%nat with (S (3 - List.length good)) by lia.
    change (firstn (4 * 0) good) with (@nil Instr.t).
    change (firstn (S (3 - List.length good)) (bad :: rest))
      with (bad :: firstn (3 - List.length good) rest)%list.
    cbn [write_chunks].
    rewrite (comprehension_raise Instr.hex (fun i => render_words (encoded i))
               good bad _ e); [reflexivity | | assumption].
    eapply Forall_impl; [| exact Hgood]. intros i Hi. apply (encoded_given i Hi).
  - (* the first line is complete *)
    assert (Hfirst : firstn 4 (good ++ bad :: rest) = firstn 4 good).
    { rewrite firstn_app. replace (4 - List.length good)%nat with 0%nat by lia.
      cbn [firstn]. apply app_nil_r. }
    assert (Hskip : skipn 4 (good ++ bad :: rest) = (skipn 4 good ++ bad :: rest)%list).
    { rewrite skipn_app. replace (4 - List.length good)%nat with 0%nat by lia.
      reflexivity. }
    assert (H4 : Forall operands_given (firstn 4 good))
      by apply (Forall_firstn_skipn _ 4 good Hgood).
    rewrite Hfirst, Hskip, (write_chunks_line _ _ H4).
    fold (write_mem (skipn 4 good ++ bad :: rest)).
    rewrite (IH (List.length (skipn 4 good)));
      [ | rewrite length_skipn; lia | apply (Forall_firstn_skipn _ 4 good Hgood) | reflexivity ].
    cbn [fst snd]. f_equal. rewrite length_skipn, <- Hlen.
    assert (Hdiv : (len / 4 = S ((len - 4) / 4))%nat).
    { replace len with ((len - 4) + 1 * 4)%nat at 1 by lia.
      rewrite Nat.div_add by lia. lia. }
    rewrite Hdiv.
    set (k := (4 * ((len - 4) / 4))%nat).
    replace (4 * S ((len - 4) / 4))%nat with (4 + k)%nat by (unfold k; lia).
    rewrite (write_mem_cons (firstn (4 + k) good)).
    + rewrite firstn_firstn, skipn_firstn_comm.
      rewrite Nat.min_l by lia.
      replace (4 + k - 4)%nat with k by lia.
      rewrite (write_chunks_line _ _ H4). reflexivity.
    + destruct good as [|a good]; [simpl in Hlen; lia | discriminate].
Qed.

Lemma write_mem_partial_witness :
  let ok := Instr.__init__ UNIT_REGISTER 0 UNIT_ALU_LEFT 0 None None in
  let bad := Instr.__init__ UNIT_ABS_OPERAND 0 UNIT_REGISTER 0 None None in
  Forall operands_given [ok; ok; ok; ok; ok]%list /\
  Instr.hex bad = Raise FormatError /\
  write_mem ([ok; ok; ok; ok; ok] ++ bad :: [ok])%list =
    (fst (write_mem (firstn (4 * (List.length [ok; ok; ok; ok; ok]%list / 4))
                       [ok; ok; ok; ok; ok]%list)), Raise FormatError).
Proof.
  intros ok bad.
  assert (Hok : operands_given ok) by (split; intros H; discriminate H).
  assert (Hgood : Forall operands_given [ok; ok; ok; ok; ok]%list)
    by (repeat (apply Forall_cons; [exact Hok |]); apply Forall_nil).
  assert (Hbad : Instr.hex bad = Raise FormatError) by reflexivity.
  split; [exact Hgood |]. split; [exact Hbad |].
  exact (write_mem_partial _ bad [ok]%list FormatError Hgood Hbad).
Defined.

Example write_mem_stops_on_missing_operand :
  let ok := Instr.__init__ UNIT_REGISTER 0 UNIT_ALU_LEFT 0 None None in
  let bad := Instr.__init__ UNIT_ABS_OPERAND 0 UNIT_REGISTER 0 None None in
  write_mem [ok; ok; ok; ok; ok; bad; ok]%list =
    ("00040003 00040003 00040003 00040003" ++ newline, Raise FormatError).
Proof. vm_compute. reflexivity. Qed.

(** ** Reading the memory file back *)

Lemma lines_app (a rest : string) :
  all_chars not_newline a = true -> lines (a ++ newline ++ rest) = (a :: lines rest)%list.
Proof.
  induction a as [|c a IH]; [reflexivity |].
  rewrite all_chars_cons. unfold not_newline at 1.
  intros H. apply andb_true_iff in H as [Hc Ha].
  cbn [append lines]. destruct (Ascii.eqb c "010"); [discriminate |].
  cbn [append] in IH. now rewrite IH.
Qed.

Lemma lines_concat (ls : list string) :
  Forall (fun l => all_chars not_newline l = true) ls ->
  lines (String.concat "" (map (fun l => l ++ newline) ls)) = ls.
Proof.
  induction 1 as [|l ls Hl _ IH]; [reflexivity |].
  cbn [map]. rewrite concat_empty_cons, append_assoc, lines_app by assumption.
  now rewrite IH.
Qed.

Lemma format_x_not_newline width n : all_chars not_newline (format_x width n) = true.
Proof.
  apply (all_chars_weaken is_format_char); [| apply format_x_chars].
  intros c. destruct (Ascii.eqb_spec c "010") as [-> | Hc]; [discriminate |].
  unfold not_newline. intros _.
  destruct (Ascii.eqb_spec c "010"); [contradiction | reflexivity].
Qed.

Lemma render_words_not_newline ws : all_chars not_newline (render_words ws) = true.
Proof.
  unfold render_words. induction ws as [|w ws IH]; [reflexivity |].
  destruct ws as [|w' ws].
  - apply format_x_not_newline.
  - change (String.concat " " (map (format_x 8) (w :: w' :: ws)))
      with (format_x 8 w ++ " " ++ String.concat " " (map (format_x 8) (w' :: ws))).
    now rewrite !all_chars_app, format_x_not_newline, IH.
Qed.

Lemma parse_tokens_render ws :
  ws <> []%list -> parse_words (tokens (render_words ws)) = Some ws.
Proof.
  intros Hne. unfold render_words. rewrite tokens_concat.
  - apply parse_words_format.
  - destruct ws; [congruence | discriminate].
  - apply Forall_forall. intros a Ha. apply in_map_iff in Ha as [w [<- _]].
    apply format_x_no_space.
Qed.

Lemma parse_lines_render (wss : list (list Z)) :
  Forall (fun ws => ws <> []%list) wss ->
  parse_lines (map render_words wss) = Some wss.
Proof.
  induction 1 as [|ws wss Hws _ IH]; [reflexivity |].
  cbn [map parse_lines]. now rewrite parse_tokens_render, IH.
Qed.

Lemma well_formed_given i : well_formed i -> operands_given i.
Proof.
  intros Hi. split; apply operand_iff_given; [apply (wf_soperand i Hi) | apply (wf_doperand i Hi)].
Qed.

(** The words of well-formed instructions put end to end are read back
    one instruction after the other. *)
Lemma Decode_stream_encoded (program : list Instr.t) :
  Forall well_formed program ->
  forall fuel, (List.length program <= fuel)%nat ->
  Decode_stream fuel (flat_map encoded program) = Some program.
Proof.
  induction 1 as [|i program Hi _ IH]; intros fuel Hfuel.
  - destruct fuel; reflexivity.
  - destruct fuel as [|fuel]; [simpl in Hfuel; lia |].
    pose proof Hi as [Hc Hsu Hsi Hdu Hdi Hso Hdo]. unfold constructed in Hc.
    cbn [flat_map]. unfold encoded at 1, Encode.
    destruct (extension_given _ _ (operand_iff_given _ _ Hso)) as [src [Esrc _]].
    destruct (extension_given _ _ (operand_iff_given _ _ Hdo)) as [dst [Edst _]].
    rewrite Esrc, Edst. cbn [bind].
    assert (Hop : Instr.op i = primary (Instr.sunit i) (Instr.si i) (Instr.dunit i) (Instr.di i)).
    { pose proof (f_equal Instr.op Hc) as Hop. now rewrite op_init in Hop. }
    apply unit_code_lt16 in Hsu, Hdu.
    rewrite <- app_comm_cons, <- app_assoc. cbn [Decode_stream]. rewrite Hop.
    rewrite field_sunit_primary, field_si_primary, field_dunit_primary, field_di_primary
      by assumption.
    rewrite (take_operand_extension _ _ _ _ Hso Esrc).
    rewrite (take_operand_extension _ _ _ _ Hdo Edst).
    rewrite IH by (simpl in Hfuel; lia). cbn [option_map]. now rewrite <- Hc.
Qed.

Lemma length_flat_map_encoded (program : list Instr.t) :
  Forall operands_given program ->
  (List.length program <= List.length (flat_map encoded program))%nat.
Proof.
  induction 1 as [|i program Hi _ IH]; [reflexivity |].
  cbn [flat_map]. rewrite length_app.
  destruct (encoded_given i Hi) as [_ [_ Hne]].
  destruct (encoded i); [congruence | simpl in *; lia].
Qed.

Lemma concat_flat_map {A B : Type} (f : A -> list B) (ls : list (list A)) :
  List.concat (map (flat_map f) ls) = flat_map f (List.concat ls).
Proof.
  induction ls as [|l ls IH]; [reflexivity |].
  cbn [map List.concat]. now rewrite flat_map_app, IH.
Qed.

(** X11. The memory file can be read back: for a program of well-formed
    instructions [main]'s loop writes the whole file, and splitting that
    text into lines and words and decoding the words one instruction
    after the other gives the program again.  Neither the lines of four
    instructions nor the extension words of variable number lose where
    an instruction starts. *)
Theorem mem_round_trip (program : list Instr.t) :
  Forall well_formed program ->
  exists text, write_mem program = (text, Ok tt) /\ Decode_mem text = Some program.
Proof.
  intros Hwf.
  assert (Hgiven : Forall operands_given program)
    by (eapply Forall_impl; [| exact Hwf]; apply well_formed_given).
  assert (Hchunks : Forall (Forall operands_given) (chunk_list program 4)).
  { apply Forall_concat. now rewrite chunk_list_concat by lia. }
  eexists. split; [unfold write_mem; now apply write_chunks_given |].
  unfold Decode_mem.
  rewrite <- (map_map (fun x => render_words (flat_map encoded x))
                      (fun l => l ++ newline)).
  rewrite lines_concat.
  - rewrite <- (map_map (flat_map encoded) render_words), parse_lines_render.
    + rewrite concat_flat_map, chunk_list_concat by lia.
      apply Decode_stream_encoded; [assumption |].
      now apply length_flat_map_encoded.
    + apply Forall_map.
      pose proof (chunk_list_bounds 4 ltac:(lia) program) as Hb.
      rewrite Forall_forall in *. intros x Hx.
      specialize (Hchunks x Hx). specialize (Hb x Hx).
      destruct x as [|i x]; [simpl in Hb; lia |].
      inversion Hchunks as [|? ? Hi _]; subst.
      cbn [flat_map]. destruct (encoded_given i Hi) as [_ [_ Hne]].
      destruct (encoded i); [congruence | discriminate].
  - apply Forall_map, Forall_forall. intros x _. apply render_words_not_newline.
Qed.

Ltac wf_concrete :=
  constructor;
  [ reflexivity
  | unfold unit_code; unit_values; simpl; lia
  | unfold index12; simpl; lia
  | unfold unit_code; unit_values; simpl; lia
  | unfold index12; simpl; lia
  | split; [try discriminate; intros _; discriminate
           | try reflexivity; intros H; now elim H]
  | split; [try discriminate; intros _; discriminate
           | try reflexivity; intros H; now elim H] ].

Lemma prgm_well_formed : Forall well_formed prgm.
Proof. unfold prgm. repeat (apply Forall_cons; [wf_concrete |]). apply Forall_nil. Qed.

Lemma mem_round_trip_witness :
  Forall well_formed prgm /\
  exists text, write_mem prgm = (text, Ok tt) /\ Decode_mem text = Some prgm.
Proof.
  split; [exact prgm_well_formed | exact (mem_round_trip prgm prgm_well_formed)].
Defined.


(** ** The listing *)








(** ** Negative fields and unused operands *)

(** X13. The constructor keeps the sign: the primary word is negative
    exactly when one of the two units or the two indices is, and
    [Instr.hex] then prints it with a minus sign first instead of as a
    32-bit pattern. *)
Theorem negative_field_negative_word
    (sunit si dunit di : Z) (soperand doperand : option Z) :
  let i := Instr.__init__ sunit si dunit di soperand doperand in
  (Instr.op i < 0 <-> sunit < 0 \/ si < 0 \/ dunit < 0 \/ di < 0) /\
  (Instr.op i < 0 -> forall s, Instr.hex i = Ok s -> exists rest, s = String "-" rest).
Proof.
  intros i. split.
  - unfold i. rewrite op_init. unfold primary.
    rewrite !Z.lor_neg, !Z.shiftl_neg. tauto.
  - intros Hneg s Hs. destruct (hex_head i s Hs) as [rest ->].
    unfold format_x. destruct (Z.ltb_spec (Instr.op i) 0); [| lia].
    cbn [append]. eexists. reflexivity.
Qed.

Lemma negative_field_negative_word_witness :
  let i := Instr.__init__ UNIT_REGISTER (-1) UNIT_REGISTER 0 None None in
  Instr.op i < 0 /\ Instr.hex i = Ok "-000000d" /\
  exists rest, "-000000d" = String "-" rest.
Proof.
  intros i.
  assert (Hneg : Instr.op i < 0) by (vm_compute; reflexivity).
  assert (Hs : Instr.hex i = Ok "-000000d") by reflexivity.
  split; [exact Hneg |]. split; [exact Hs |].
  exact (proj2 (negative_field_negative_word UNIT_REGISTER (-1) UNIT_REGISTER 0 None None)
           Hneg _ Hs).
Defined.

(** X14. An operand is read only for a unit that uses it: two
    instructions that differ at most in operands their units do not
    carry have the same [Instr.hex]; and the same [Instr.asm] when they
    differ at most in a source operand the source unit does not carry
    and a destination operand of a destination other than MemoryOperand. *)
Theorem unused_operands_ignored
    (si di dunit sunit op : Z) (soperand soperand' doperand doperand' : option Z) :
  let i := Instr.mk si di dunit sunit soperand doperand op in
  let j := Instr.mk si di dunit sunit soperand' doperand' op in
  (carries_operand sunit = true -> soperand = soperand') ->
  ((carries_operand dunit = true -> doperand = doperand') -> Instr.hex i = Instr.hex j) /\
  ((dunit = UNIT_MEMORY_OPERAND -> doperand = doperand') -> Instr.asm i = Instr.asm j).
Proof.
  intros i j Hs. split; intros Hd.
  - rewrite !hex_Encode. unfold Encode, extension, i, j. cbn [Instr.sunit Instr.dunit
      Instr.soperand Instr.doperand Instr.op].
    destruct (carries_operand sunit); [rewrite Hs by reflexivity |];
      (destruct (carries_operand dunit); [rewrite Hd by reflexivity |]); reflexivity.
  - assert (Hsrc : Instr.asm_source i = Instr.asm_source j).
    { revert Hs. rewrite carries_operand_spec.
      unfold Instr.asm_source, i, j. cbn [Instr.sunit Instr.soperand Instr.si].
      intros Hs. chain; try reflexivity; rewrite Hs by auto; reflexivity. }
    assert (Hdst : Instr.asm_dest i = Instr.asm_dest j).
    { unfold Instr.asm_dest, i, j. cbn [Instr.dunit Instr.doperand Instr.di].
      chain; try reflexivity. rewrite Hd by assumption. reflexivity. }
    unfold Instr.asm. now rewrite Hsrc, Hdst.
Qed.

Lemma unused_operands_ignored_witness :
  let i := Instr.mk 1 2 UNIT_REGISTER UNIT_REGISTER (Some 7) (Some 8) 0x00230013 in
  let j := Instr.mk 1 2 UNIT_REGISTER UNIT_REGISTER None None 0x00230013 in
  Instr.hex i = Instr.hex j /\ Instr.asm i = Instr.asm j.
Proof.
  intros i j.
  assert (Hs : carries_operand UNIT_REGISTER = true -> Some 7 = @None Z)
    by (intros H; discriminate H).
  assert (Hd : carries_operand UNIT_REGISTER = true -> Some 8 = @None Z)
    by (intros H; discriminate H).
  assert (Hm : UNIT_REGISTER = UNIT_MEMORY_OPERAND -> Some 8 = @None Z)
    by (intros H; discriminate H).
  pose proof (unused_operands_ignored 1 2 UNIT_REGISTER UNIT_REGISTER 0x00230013
                (Some 7) None (Some 8) None Hs) as [Hhex Hasm].
  split; [exact (Hhex Hd) | exact (Hasm Hm)].
Defined.
